(** * Detection of a sinusoid of unknown phase in white Gaussian noise

    Verification of the functions of [detection.ipynb]:

    - [snr_threshold_given_false_positive_rate]  (the threshold solver),
    - [true_positive_rate_given_snr_and_threshold]  (the detection
      probability evaluator),
    - [interactive_detection_plot]  (the function behind the sliders).

    Numbers.  The notebook computes on IEEE doubles through Python, numpy
    and scipy.  A finite double is here a real number of [R]; the two
    infinities and NaN are kept.  Of the arithmetic of doubles the model
    keeps what changes an outcome of the code:

    - the subtractions and additions the code does itself round to the
      nearest double ([fp.RN]): [1 - p] is 1 for a tiny [p], [1.0 - cdf]
      is 1 for a tiny [cdf];
    - [10 ** e] on Python numbers raises [OverflowError] when the power
      is beyond the largest double, and numpy gives infinity there; so
      does a product of the evaluator;
    - a power or a quotient that is too small rounds to zero;
    - [np.arange] fills its array from a rounded step.

    The functions of the libraries ([np.log10], [gammaincinv],
    [ncx2.cdf]) and the remaining products and quotients are taken exact:
    their rounding is of relative size [2^-53] and the statements below
    leave room for it.  They hold on bounded inputs, where the code
    computes on doubles of ordinary size: thresholds and signal-to-noise
    ratios between -200 and 40 dB, and for the plotting function the
    ranges of the sliders or a duration between [10^-3] and [10^6] ms. *)

From Stdlib Require Import ZArith Reals Factorial Lra Lia ClassicalEpsilon List.
Import ListNotations.

Local Open Scope R_scope.

(** ** Values and outcomes *)

(** A numpy float: a finite value, or one of the IEEE special values. *)
Inductive npfloat : Type :=
| Fin (r : R)
| PInf
| NInf
| NaN.

(** What a Python call does: it raises, or it returns a value. *)
Inductive exn : Type :=
| ValueError
| OverflowError.

Inductive outcome (A : Type) : Type :=
| Raise (e : exn)
| Return (v : A).

Arguments Raise {A} e.
Arguments Return {A} v.

Definition raises {A : Type} (o : outcome A) : Prop :=
  exists e, o = Raise e.

Definition is_finite (v : npfloat) : Prop :=
  exists r, v = Fin r.

(** ** Doubles *)

Module fp.

(** [2 ^ z] for an integer exponent. *)
Definition pow2 (z : Z) : R := Rpower 2 (IZR z).

(** The exponent of the binade of [x]: [2^(mag x - 1) <= |x| < 2^(mag x)]. *)
Definition mag (x : R) : Z := up (ln (Rabs x) / ln 2).

(** The spacing of the doubles in the binade of [x]: 53 significant bits. *)
Definition ulp (x : R) : R := pow2 (mag x - 53).

(** The integer nearest to [r], the even one of the two on a tie. *)
Definition rint (r : R) : Z :=
  let f := (up r - 1)%Z in
  if Rlt_dec (r - IZR f) (1 / 2) then f
  else if Rlt_dec (1 / 2) (r - IZR f) then (f + 1)%Z
  else if Z.even f then f else (f + 1)%Z.

(** Rounding to the nearest double, ties to even.  The range of the
    exponent is not limited here: overflow and underflow are checked where
    the code can meet them. *)
Definition RN (x : R) : R :=
  if Req_dec_T x 0 then 0 else IZR (rint (x / ulp x)) * ulp x.

(** From this value on a result rounds to infinity. *)
Definition overflow_threshold : R := 2 ^ 1024 - 2 ^ 970.

(** Up to this magnitude a result rounds to zero. *)
Definition underflow_threshold : R := / 2 ^ 1075.

End fp.

(** ** Sums of series and tolerances *)

(** The sum of the series of general term [a]: the limit of its partial
    sums [a 0 + ... + a N] when they converge (and 0 otherwise). *)
Definition series_sum (a : nat -> R) : R :=
  match excluded_middle_informative (exists l, Un_cv (sum_f_R0 a) l) with
  | left H => proj1_sig (constructive_indefinite_description _ H)
  | right _ => 0
  end.


(** [a] and [b] agree within the absolute tolerance [tol]. *)
Definition within_abs_tol (tol a b : R) : Prop :=
  Rabs (a - b) <= tol.

(** ** Python numbers *)

Module pyfloat.

(** [a - b]: rounded to the nearest double. *)
Definition sub (a b : R) : R := fp.RN (a - b).

(** [b ** e]: raises [OverflowError] when the power is too large for a
    double, and is zero when it is too small. *)
Definition pow (b e : R) : outcome R :=
  if Rle_dec fp.overflow_threshold (Rpower b e) then Raise OverflowError
  else if Rle_dec (Rpower b e) fp.underflow_threshold then Return 0
  else Return (Rpower b e).

(** [a * b]: infinite when the product is too large for a double (a
    product does not raise). *)
Definition mul (a b : R) : npfloat :=
  if Rle_dec fp.overflow_threshold (Rabs (a * b))
  then (if Rlt_dec 0 (a * b) then PInf else NInf)
  else Fin (a * b).

Definition bind {A B : Type} (m : outcome A) (k : A -> outcome B)
  : outcome B :=
  match m with
  | Raise e => Raise e
  | Return v => k v
  end.

End pyfloat.

Notation "x <~ m ;; k" := (pyfloat.bind m (fun x => k))
  (at level 61, m at next level, right associativity).

(** ** The numpy and scipy functions the notebook calls *)

Module np.

(** [np.log10] on reals. *)
Definition log10R (x : R) : R := ln x / ln 10.

(** [np.log10]: NaN below zero, minus infinity at zero (numpy warns,
    it does not raise), the logarithm above. *)
Definition log10 (v : npfloat) : npfloat :=
  match v with
  | Fin x =>
      if Rlt_dec x 0 then NaN
      else if Req_dec_T x 0 then NInf
      else Fin (log10R x)
  | PInf => PInf
  | NInf => NaN
  | NaN => NaN
  end.

(** The product [k * v] of a Python number [k] and a numpy float. *)
Definition mul (k : R) (v : npfloat) : npfloat :=
  match v with
  | Fin x => Fin (k * x)
  | PInf => if Rlt_dec 0 k then PInf else if Rlt_dec k 0 then NInf else NaN
  | NInf => if Rlt_dec 0 k then NInf else if Rlt_dec k 0 then PInf else NaN
  | NaN => NaN
  end.

(** The difference [k - v] of a Python number [k] and a numpy float,
    rounded to the nearest double. *)
Definition rsub (k : R) (v : npfloat) : npfloat :=
  match v with
  | Fin x => Fin (fp.RN (k - x))
  | PInf => NInf
  | NInf => PInf
  | NaN => NaN
  end.

(** The real power [b^e] of a positive base: the value of [b ** e] when
    it is in the range of doubles (see [pyfloat.pow] and [nparray.pow10]
    outside it). *)
Definition power (b e : R) : R := Rpower b e.

End np.

Module special.

(** The Poisson weight [exp(-mu) mu^j / j!]. *)
Definition poisson_pmf (mu : R) (j : nat) : R :=
  exp (- mu) * mu ^ j / INR (fact j).

(** [scipy.special.gammainc a x], the regularized lower incomplete gamma
    function [P(a,x)], at an integer shape [a], by the recurrence
    [P(a+1,x) = P(a,x) - x^a exp(-x) / a!]; at shape 0 it is the
    constant 1. *)
Fixpoint gammainc (a : nat) (x : R) : R :=
  match a with
  | O => 1
  | S n => gammainc n x - poisson_pmf x n
  end.

(** [scipy.special.gammaincinv a y], the inverse of [P(a,.)]: NaN outside
    [0,1], infinite at 1, and on [0,1) the point [x >= 0] where
    [P(a,x) = y].  The notebook calls it at shape 1; shape 0, where
    [P(0,.)] is constant, is taken as not valid. *)
Definition gammaincinv (a : nat) (y : R) : npfloat :=
  if Nat.eqb a 0 then NaN
  else if Rlt_dec y 0 then NaN
  else if Rlt_dec 1 y then NaN
  else if Req_dec_T y 1 then PInf
  else Fin (epsilon (inhabits 0) (fun x => 0 <= x /\ gammainc a x = y)).

End special.

(** ** The chi-squared distributions *)

Module dist.

(** The CDF of the chi-squared distribution with an even number [df] of
    degrees of freedom: [P(df/2, x/2)] on the positive axis. *)
Definition chi2_cdf (df : nat) (x : R) : R :=
  if Rle_dec x 0 then 0 else special.gammainc (Nat.div2 df) (x / 2).

(** The CDF of the non-central chi-squared distribution with [df]
    degrees of freedom and non-centrality [nc]: the mixture of the
    central CDFs with [df + 2 j] degrees of freedom, with the Poisson
    weights of mean [nc / 2]. *)
Definition ncx2_term (df : nat) (nc x : R) (j : nat) : R :=
  special.poisson_pmf (nc / 2) j * chi2_cdf (df + 2 * j) x.

Definition ncx2_cdf (df : nat) (nc x : R) : R :=
  series_sum (ncx2_term df nc x).

(** The mixture cut after the term of index [N]. *)
Definition ncx2_partial (df : nat) (nc x : R) (N : nat) : R :=
  sum_f_R0 (ncx2_term df nc x) N.

End dist.

(** The mixture with 2 degrees of freedom in the half variables
    [mu = nc / 2] and [y = x / 2], cut after the term of index [N]. *)
Definition mixture_partial (mu y : R) (N : nat) : R :=
  sum_f_R0 (fun j => special.poisson_pmf mu j * special.gammainc (S j) y) N.

Module stats.

(** [scipy.stats.ncx2.cdf x df nc]: NaN when the parameters are not
    valid ([df <= 0] or [nc < 0]), 0 at and below the lower end of the
    support, the CDF otherwise.  Only even [df] is covered (the notebook
    passes 2).  At very large arguments scipy loses the value and gives
    NaN; the model has the CDF at every argument, and the statements on
    the evaluator keep both arguments to at most 40 dB. *)
Definition ncx2_cdf (x : R) (df : nat) (nc : R) : npfloat :=
  if Nat.eqb df 0 then NaN
  else if Rlt_dec nc 0 then NaN
  else if Rle_dec x 0 then Fin 0
  else Fin (dist.ncx2_cdf df nc x).

End stats.

(** ** numpy floats and arrays *)

Module nparray.

(** The least integer not below [r]. *)
Definition ceil (r : R) : Z := (1 - up (- r))%Z.

(** [np.arange start stop step] on doubles: the length is
    [ceil((stop - start) / step)], the step is taken from the first two
    entries, [delta = (start + step) - start], and the entries are
    [start + i * delta]; every operation rounds. *)
Definition arange_length (start stop step : R) : nat :=
  Z.to_nat (ceil (fp.RN (fp.RN (stop - start) / step))).

Definition arange_delta (start step : R) : R :=
  fp.RN (fp.RN (start + step) - start).

Definition arange (start stop step : R) : list R :=
  map (fun i => fp.RN (start + fp.RN (INR i * arange_delta start step)))
      (seq 0 (arange_length start stop step)).

(** The quotient [v / k] of a numpy float by a Python number (numpy
    warns on a zero divisor, it does not raise). *)
Definition div (v : npfloat) (k : R) : npfloat :=
  match v with
  | Fin x =>
      if Req_dec_T k 0
      then (if Rlt_dec 0 x then PInf else if Rlt_dec x 0 then NInf else NaN)
      else Fin (x / k)
  | PInf => if Rlt_dec k 0 then NInf else PInf
  | NInf => if Rlt_dec k 0 then PInf else NInf
  | NaN => NaN
  end.

(** [10 ** v] for a numpy float [v]: numpy warns on overflow and gives
    infinity, it does not raise; a power that is too small is zero. *)
Definition pow10 (v : npfloat) : npfloat :=
  match v with
  | Fin e =>
      if Rle_dec fp.overflow_threshold (np.power 10 e) then PInf
      else if Rle_dec (np.power 10 e) fp.underflow_threshold then Fin 0
      else Fin (np.power 10 e)
  | PInf => PInf
  | NInf => Fin 0
  | NaN => NaN
  end.

(** The sum [k + v] of two numpy floats, the first one finite, rounded to
    the nearest double. *)
Definition add (k : R) (v : npfloat) : npfloat :=
  match v with
  | Fin x => Fin (fp.RN (k + x))
  | PInf => PInf
  | NInf => NInf
  | NaN => NaN
  end.

(** [scipy.stats.chi2.cdf] and [scipy.stats.ncx2.cdf] at numpy floats: NaN
    for parameters that are not valid or a NaN point, 1 at plus infinity,
    0 at minus infinity. *)
Definition chi2_cdf (x : npfloat) (df : nat) : npfloat :=
  if Nat.eqb df 0 then NaN
  else match x with
       | Fin r => Fin (dist.chi2_cdf df r)
       | PInf => Fin 1
       | NInf => Fin 0
       | NaN => NaN
       end.

Definition ncx2_cdf (x : npfloat) (df : nat) (nc : npfloat) : npfloat :=
  match nc with
  | Fin c =>
      if Nat.eqb df 0 then NaN
      else if Rlt_dec c 0 then NaN
      else match x with
           | Fin r => stats.ncx2_cdf r df c
           | PInf => Fin 1
           | NInf => Fin 0
           | NaN => NaN
           end
  | _ => NaN
  end.

End nparray.

(** ** The threshold solver *)

(** [return 10*np.log10(sp.special.gammaincinv(1, 1-false_positive_rate))] *)
Definition snr_threshold_given_false_positive_rate
    (false_positive_rate : R) : outcome npfloat :=
  Return (np.mul 10
            (np.log10
               (special.gammaincinv 1
                  (pyfloat.sub 1 false_positive_rate)))).

(** ** The detection probability evaluator *)

(** [[
    power_conversion_factor = 1.0
    if not isPeak:
        power_conversion_factor = 2.0
    return 1.0 - sp.stats.ncx2.cdf(2*(10**(threshold/10)), 2,
                                   power_conversion_factor*10**(snr/10))
    ]]
    on Python numbers: the two powers can raise, the two products can
    be infinite. *)
Definition true_positive_rate_given_snr_and_threshold
    (threshold snr : R) (isPeak : bool) : outcome npfloat :=
  let power_conversion_factor := 1 in
  let power_conversion_factor :=
    if negb isPeak then 2 else power_conversion_factor in
  threshold_linear <~ pyfloat.pow 10 (threshold / 10) ;;
  snr_linear <~ pyfloat.pow 10 (snr / 10) ;;
  Return (np.rsub 1
            (nparray.ncx2_cdf (pyfloat.mul 2 threshold_linear) 2
               (pyfloat.mul power_conversion_factor snr_linear))).

(** The call with two arguments takes the default [isPeak = False]. *)
Definition true_positive_rate_default (threshold snr : R) : outcome npfloat :=
  true_positive_rate_given_snr_and_threshold threshold snr false.

(** ** The evaluator as the specification words it *)

Module Spec.

(** "factor is 1 when isPeakPower is true and 2 when it is false". *)
Definition factor (isPeakPower : bool) : R :=
  if isPeakPower then 1 else 2.

(** "x = 2 * 10^(thresholdDb/10)". *)
Definition x (thresholdDb : R) : R := 2 * Rpower 10 (thresholdDb / 10).

(** "lambda = factor * 10^(snrDb/10)". *)
Definition lambda (snrDb : R) (isPeakPower : bool) : R :=
  factor isPeakPower * Rpower 10 (snrDb / 10).

(** "the survival function (1 minus CDF) of the non-central chi-squared
    distribution with 2 degrees of freedom, non-centrality lambda, at
    point x". *)
Definition evaluate_detection
    (thresholdDb snrDb : R) (isPeakPower : bool) : R :=
  1 - dist.ncx2_cdf 2 (lambda snrDb isPeakPower) (x thresholdDb).

End Spec.


(** [true_positive_rate_given_snr_and_threshold] as the plotting function
    calls it: the threshold is the numpy float the solver returned, the
    signal-to-noise ratios are an array, and the result is the array of the
    values, element by element; numpy does not raise. *)
Definition true_positive_rate_np
    (threshold : npfloat) (snr : R) (isPeak : bool) : npfloat :=
  let power_conversion_factor := 1 in
  let power_conversion_factor :=
    if negb isPeak then 2 else power_conversion_factor in
  np.rsub 1
    (nparray.ncx2_cdf
       (np.mul 2 (nparray.pow10 (nparray.div threshold 10))) 2
       (np.mul power_conversion_factor
          (nparray.pow10 (nparray.div (Fin snr) 10)))).

Definition true_positive_rate_array
    (threshold : npfloat) (snr : list R) (isPeak : bool)
  : outcome (list npfloat) :=
  Return (map (fun s => true_positive_rate_np threshold s isPeak) snr).


(** ** The plotting function

    [interactive_detection_plot] derives the rate of false positives of
    one recording, takes the threshold from the solver, evaluates the
    detection probability over a range of signal-to-noise ratios and hands
    the curve to matplotlib.  The model follows its numbers: it returns the
    local variables the function ends with, among them the arguments of
    [ax.plot] and of [ax2.set_xlim].  Of the drawing it keeps the two
    checks by which matplotlib raises: [ax.plot] wants two arrays of the
    same length, [set_xlim] wants finite limits. *)

(** The exceptions of Python proper, next to those of the library calls. *)
Inductive pyexn : Type :=
| ZeroDivisionError
| IndexError
| LibraryError (e : exn).

Inductive pyresult (A : Type) : Type :=
| Raised (e : pyexn)
| Returned (v : A).

Arguments Raised {A} e.
Arguments Returned {A} v.

Module py.

Definition bind {A B : Type} (m : pyresult A) (k : A -> pyresult B)
  : pyresult B :=
  match m with
  | Raised e => Raised e
  | Returned v => k v
  end.

(** The result of a call of one of the two functions above. *)
Definition call {A : Type} (o : outcome A) : pyresult A :=
  match o with
  | Raise e => Raised (LibraryError e)
  | Return v => Returned v
  end.

(** [a / b] on Python numbers: division by zero raises, and a quotient
    too small for a double is zero.  (A quotient beyond the largest
    double would be infinite; the statements on the plotting function
    bound the duration, and no quotient of theirs is that large.) *)
Definition truediv (a b : R) : pyresult R :=
  if Req_dec_T b 0 then Raised ZeroDivisionError
  else if Rle_dec (Rabs (a / b)) fp.underflow_threshold then Returned 0
  else Returned (a / b).

(** [l[i]]: a negative index counts from the end, an index out of range
    raises. *)
Definition getitem (l : list R) (i : Z) : pyresult R :=
  let k := if Z.ltb i 0 then (Z.of_nat (length l) + i)%Z else i in
  if Z.ltb k 0 then Raised IndexError
  else match nth_error l (Z.to_nat k) with
       | Some v => Returned v
       | None => Raised IndexError
       end.

End py.

Notation "x <- m ;; k" := (py.bind m (fun x => k))
  (at level 61, m at next level, right associativity).

Module plt.

(** [ax.plot(x, y)]: raises [ValueError] when the two arrays differ in
    length. *)
Definition plot (x : list R) (y : list npfloat) : pyresult unit :=
  if Nat.eqb (length x) (length y) then Returned tt
  else Raised (LibraryError ValueError).

(** [ax.set_xlim(left, right)]: raises [ValueError] when a limit is NaN
    or infinite; the limits it sets otherwise. *)
Definition set_xlim (left right : npfloat) : pyresult (npfloat * npfloat) :=
  match left, right with
  | Fin _, Fin _ => Returned (left, right)
  | _, _ => Raised (LibraryError ValueError)
  end.

End plt.

(** The entry of index [i] of [np.arange(10, 20, 0.1)]. *)
Definition grid_point (i : nat) : R :=
  fp.RN (10 + fp.RN (INR i * nparray.arange_delta 10 (fp.RN (1 / 10)))).

(** The local variables of [interactive_detection_plot] when it ends;
    [snr_range] and [probability_of_detection] are the two arguments of
    [ax.plot], [xlim] the limits [ax2.set_xlim] has set. *)
Record plot_locals : Type := {
  signal_duration : R;
  num_recordings_per_year : R;
  false_positive_rate : R;
  threshold_db : npfloat;
  white_noise_power : npfloat;
  snr_range : list R;
  probability_of_detection : list npfloat;
  xlim : npfloat * npfloat
}.

(** [[
    signal_duration = signal_duration_ms/1000
    num_recordings_per_year = 365*24*60*60/signal_duration
    false_positive_rate = false_positives_per_year/num_recordings_per_year
    threshold_db = snr_threshold_given_false_positive_rate(false_positive_rate)
    white_noise_power = whitenoisedensity - 10*np.log10(signal_duration)
    snr_range = np.arange(10, 20, 0.1)
    probability_of_detection =
        true_positive_rate_given_snr_and_threshold(threshold_db, snr_range)
    ...
    ax.plot(snr_range, probability_of_detection)
    ...
    ax2.set_xlim(snr_range[0]+white_noise_power,
                 snr_range[-1]+white_noise_power)
    ]] *)
Definition interactive_detection_plot
    (whitenoisedensity false_positives_per_year signal_duration_ms : R)
  : pyresult plot_locals :=
  signal_duration <- py.truediv signal_duration_ms 1000 ;;
  num_recordings_per_year <-
    py.truediv (365 * 24 * 60 * 60) signal_duration ;;
  false_positive_rate <-
    py.truediv false_positives_per_year num_recordings_per_year ;;
  threshold_db <-
    py.call (snr_threshold_given_false_positive_rate false_positive_rate) ;;
  let white_noise_power :=
    np.rsub whitenoisedensity (np.mul 10 (np.log10 (Fin signal_duration))) in
  let snr_range := nparray.arange 10 20 (fp.RN (1 / 10)) in
  probability_of_detection <-
    py.call (true_positive_rate_array threshold_db snr_range false) ;;
  _ <- plt.plot snr_range probability_of_detection ;;
  snr_first <- py.getitem snr_range 0 ;;
  snr_last <- py.getitem snr_range (-1) ;;
  xlim <- plt.set_xlim (nparray.add snr_first white_noise_power)
                       (nparray.add snr_last white_noise_power) ;;
  Returned {|
    signal_duration := signal_duration;
    num_recordings_per_year := num_recordings_per_year;
    false_positive_rate := false_positive_rate;
    threshold_db := threshold_db;
    white_noise_power := white_noise_power;
    snr_range := snr_range;
    probability_of_detection := probability_of_detection;
    xlim := xlim
  |}.

(** The sliders that feed the function: an initial value and the two ends
    of the range. *)
Record slider : Type := {
  value : R;
  min : R;
  max : R
}.

Definition in_range (s : slider) (v : R) : Prop := min s <= v <= max s.

(** [IntSlider(value = 90, min = 60, max = 140, step = 1, ...)] *)
Definition whitenoiseslider : slider :=
  {| value := 90; min := 60; max := 140 |}.

(** [FloatSlider(value = 1.0, min = 0.2, max = 1000, ...)] *)
Definition fpa_slider : slider :=
  {| value := 1; min := 2 / 10; max := 1000 |}.

(** [IntSlider(value = 25, min = 1, max = 50, step = 1, ...)] *)
Definition duration_slider : slider :=
  {| value := 25; min := 1; max := 50 |}.

(** ** Rounding to the nearest double *)

Lemma Rabs_le_inv (a b : R) : Rabs a <= b -> - b <= a <= b.
Proof.
  intros H. unfold Rabs in H. destruct (Rcase_abs a); lra.
Qed.

Lemma ln2_pos : 0 < ln 2.
Proof. rewrite <- ln_1. apply ln_increasing; lra. Qed.

Lemma pow2_pos (z : Z) : 0 < fp.pow2 z.
Proof. apply exp_pos. Qed.

Lemma pow2_add (a b : Z) : fp.pow2 (a + b) = fp.pow2 a * fp.pow2 b.
Proof. unfold fp.pow2. now rewrite plus_IZR, Rpower_plus. Qed.

Lemma pow2_le (a b : Z) : (a <= b)%Z -> fp.pow2 a <= fp.pow2 b.
Proof.
  intros H. unfold fp.pow2, Rpower. apply IZR_le in H. pose proof ln2_pos.
  destruct (Rle_lt_or_eq_dec _ _ H) as [Hlt|Heq].
  - apply Rlt_le, exp_increasing. nra.
  - rewrite Heq. lra.
Qed.

Lemma pow2_nat (n : nat) : fp.pow2 (Z.of_nat n) = 2 ^ n.
Proof.
  unfold fp.pow2. rewrite <- INR_IZR_INZ. apply Rpower_pow. lra.
Qed.

Lemma pow2_opp (z : Z) : fp.pow2 (- z) = / fp.pow2 z.
Proof. unfold fp.pow2. rewrite opp_IZR. apply Rpower_Ropp. Qed.

Lemma pow2_0 : fp.pow2 0 = 1.
Proof. apply (pow2_nat 0). Qed.

Lemma floor_spec (r : R) : IZR (up r - 1) <= r < IZR (up r - 1) + 1.
Proof.
  rewrite minus_IZR. destruct (archimed r). lra.
Qed.

Lemma rint_cases (r : R) :
  let f := (up r - 1)%Z in
  (r - IZR f < 1 / 2 /\ fp.rint r = f) \/
  (1 / 2 < r - IZR f /\ fp.rint r = (f + 1)%Z) \/
  (r - IZR f = 1 / 2 /\ fp.rint r = if Z.even f then f else (f + 1)%Z).
Proof.
  intros f. unfold fp.rint. fold f.
  destruct (Rlt_dec (r - IZR f) (1 / 2)) as [H|H]; [now left|].
  destruct (Rlt_dec (1 / 2) (r - IZR f)) as [H'|H']; [right; now left|].
  right. right. split; [lra | reflexivity].
Qed.

Lemma rint_error (r : R) : Rabs (IZR (fp.rint r) - r) <= 1 / 2.
Proof.
  pose proof (floor_spec r) as Hf.
  destruct (rint_cases r) as [[H E]|[[H E]|[H E]]]; rewrite E.
  - apply Rabs_le. lra.
  - rewrite plus_IZR. apply Rabs_le. lra.
  - destruct (Z.even (up r - 1)); [|rewrite plus_IZR]; apply Rabs_le; lra.
Qed.

Lemma rint_between (r : R) :
  (up r - 1 <= fp.rint r <= up r)%Z.
Proof.
  destruct (rint_cases r) as [[H E]|[[H E]|[H E]]]; rewrite E; try lia.
  destruct (Z.even (up r - 1)); lia.
Qed.

Lemma rint_ge_int (r : R) (n : Z) : IZR n <= r -> (n <= fp.rint r)%Z.
Proof.
  intros H. pose proof (floor_spec r) as Hf. pose proof (rint_between r).
  assert (n < up r - 1 + 1)%Z; [|lia].
  apply lt_IZR. rewrite plus_IZR. lra.
Qed.

Lemma rint_lt_half (r : R) (n : Z) :
  r < IZR n + 1 / 2 -> (fp.rint r <= n)%Z.
Proof.
  intros H. pose proof (floor_spec r) as Hf.
  assert (Hfn : (up r - 1 <= n)%Z).
  { assert (up r - 1 < n + 1)%Z; [|lia]. apply lt_IZR. rewrite plus_IZR. lra. }
  destruct (Z.eq_dec (up r - 1) n) as [E|E].
  - destruct (rint_cases r) as [[H1 E1]|[[H1 E1]|[H1 E1]]];
      rewrite E in H1; try lra. rewrite E1. lia.
  - pose proof (rint_between r). lia.
Qed.

Lemma rint_le_int (r : R) (n : Z) : r <= IZR n -> (fp.rint r <= n)%Z.
Proof. intros H. apply rint_lt_half. lra. Qed.

Lemma rint_gt_half (r : R) (n : Z) :
  IZR n + 1 / 2 < r -> (n + 1 <= fp.rint r)%Z.
Proof.
  intros H. pose proof (floor_spec r) as Hf.
  assert (Hfn : (n <= up r - 1)%Z).
  { assert (n < up r - 1 + 1)%Z; [|lia]. apply lt_IZR. rewrite plus_IZR. lra. }
  destruct (Z.eq_dec (up r - 1) n) as [E|E].
  - destruct (rint_cases r) as [[H1 E1]|[[H1 E1]|[H1 E1]]];
      rewrite E in H1; try lra. rewrite E1. lia.
  - pose proof (rint_between r). lia.
Qed.

Lemma rint_tie (r : R) (n : Z) :
  r = IZR n + 1 / 2 -> fp.rint r = if Z.even n then n else (n + 1)%Z.
Proof.
  intros H. pose proof (floor_spec r) as Hf.
  assert (E : (up r - 1)%Z = n).
  { assert (n < up r - 1 + 1)%Z.
    { apply lt_IZR. rewrite plus_IZR. lra. }
    assert (up r - 1 < n + 1)%Z.
    { apply lt_IZR. rewrite plus_IZR. lra. }
    lia. }
  destruct (rint_cases r) as [[H1 E1]|[[H1 E1]|[H1 E1]]];
    rewrite E in H1; try lra. now rewrite E1, E.
Qed.

Lemma rint_near (r : R) (n : Z) :
  Rabs (r - IZR n) < 1 / 2 -> fp.rint r = n.
Proof.
  intros H. apply Rabs_def2 in H.
  assert (fp.rint r <= n)%Z by (apply rint_lt_half; lra).
  assert (n - 1 + 1 <= fp.rint r)%Z.
  { apply rint_gt_half. rewrite minus_IZR. lra. }
  lia.
Qed.

Lemma pow2_ln (z : Z) : ln (fp.pow2 z) = IZR z * ln 2.
Proof. unfold fp.pow2, Rpower. apply ln_exp. Qed.

Lemma mag_spec (x : R) :
  x <> 0 -> fp.pow2 (fp.mag x - 1) <= Rabs x < fp.pow2 (fp.mag x).
Proof.
  intros Hx. pose proof (Rabs_pos_lt x Hx) as Ha. pose proof ln2_pos as H2.
  unfold fp.mag. set (l := ln (Rabs x) / ln 2).
  destruct (archimed l) as [A1 A2].
  assert (El : ln (Rabs x) = l * ln 2) by (unfold l; field; lra).
  rewrite <- (exp_ln (Rabs x)) by exact Ha. rewrite El.
  unfold fp.pow2, Rpower. rewrite minus_IZR. split.
  - destruct (Rle_lt_or_eq_dec (IZR (up l) - 1) l) as [H|H]; [lra| |].
    + apply Rlt_le, exp_increasing. nra.
    + rewrite H. lra.
  - apply exp_increasing. nra.
Qed.

Lemma mag_unique (x : R) (e : Z) :
  fp.pow2 (e - 1) <= Rabs x < fp.pow2 e -> fp.mag x = e.
Proof.
  intros [H1 H2]. pose proof ln2_pos as Hl.
  assert (Ha : 0 < Rabs x).
  { apply Rlt_le_trans with (2 := H1). apply pow2_pos. }
  unfold fp.mag. symmetry. apply tech_up.
  - apply Rmult_lt_reg_r with (ln 2); [exact Hl|].
    unfold Rdiv. rewrite Rmult_assoc, Rinv_l, Rmult_1_r by lra.
    rewrite <- pow2_ln. now apply ln_increasing.
  - apply Rmult_le_reg_r with (ln 2); [exact Hl|].
    rewrite Rmult_plus_distr_r.
    unfold Rdiv. rewrite Rmult_assoc, Rinv_l, Rmult_1_r by lra.
    assert (E : IZR e * ln 2 = ln (fp.pow2 (e - 1)) + 1 * ln 2).
    { rewrite pow2_ln, minus_IZR. ring. }
    rewrite E. apply Rplus_le_compat_r.
    destruct (Rle_lt_or_eq_dec _ _ H1) as [Hlt|Heq].
    + apply Rlt_le, ln_increasing; [apply pow2_pos | exact Hlt].
    + rewrite Heq. lra.
Qed.

Lemma ulp_pos (x : R) : 0 < fp.ulp x.
Proof. apply pow2_pos. Qed.

Lemma RN_0 : fp.RN 0 = 0.
Proof.
  unfold fp.RN. destruct (Req_dec_T 0 0) as [_|H]; [reflexivity|lra].
Qed.

(** The error of one rounding is at most half a unit in the last place. *)
Lemma RN_error_ulp (x : R) : Rabs (fp.RN x - x) <= fp.ulp x / 2.
Proof.
  pose proof (ulp_pos x) as Hu. unfold fp.RN.
  destruct (Req_dec_T x 0) as [E|E].
  - subst x. replace (0 - 0) with 0 by ring. rewrite Rabs_R0. lra.
  - pose proof (rint_error (x / fp.ulp x)) as H.
    replace (IZR (fp.rint (x / fp.ulp x)) * fp.ulp x - x)
      with ((IZR (fp.rint (x / fp.ulp x)) - x / fp.ulp x) * fp.ulp x)
      by (field; lra).
    rewrite Rabs_mult, (Rabs_pos_eq (fp.ulp x)) by lra.
    apply Rle_trans with (1 / 2 * fp.ulp x); [|lra].
    apply Rmult_le_compat_r; lra.
Qed.

Lemma pow2_1 : fp.pow2 1 = 2.
Proof.
  change (fp.pow2 (Z.of_nat 1) = 2). rewrite pow2_nat. simpl. lra.
Qed.

Lemma pow2_53 : fp.pow2 53 = 2 ^ 53.
Proof. apply (pow2_nat 53). Qed.

Lemma ulp_split (x : R) : fp.ulp x * 2 ^ 53 = fp.pow2 (fp.mag x).
Proof.
  unfold fp.ulp. rewrite <- pow2_53, <- pow2_add. f_equal. lia.
Qed.

(** The relative error of one rounding is at most [2^-53]. *)
Lemma RN_error_rel (x : R) : Rabs (fp.RN x - x) <= Rabs x / 2 ^ 53.
Proof.
  destruct (Req_dec x 0) as [E|E].
  - subst x. rewrite RN_0. replace (0 - 0) with 0 by ring.
    rewrite Rabs_R0. lra.
  - apply Rle_trans with (1 := RN_error_ulp x).
    pose proof (mag_spec x E) as [Hlo _].
    pose proof (ulp_split x) as Hs. pose proof (ulp_pos x) as Hu.
    assert (E2 : fp.pow2 (fp.mag x - 1) = fp.pow2 (fp.mag x) / 2).
    { replace (fp.mag x - 1)%Z with (fp.mag x + - (1))%Z by lia.
      rewrite pow2_add, pow2_opp.
      rewrite pow2_1. field. }
    rewrite E2, <- Hs in Hlo.
    apply Rmult_le_reg_r with (2 ^ 53); [lra|].
    unfold Rdiv at 2. rewrite Rmult_assoc, Rinv_l, Rmult_1_r by lra. lra.
Qed.

(** In the binade [2^(e-1), 2^e) a rounding stays in the closed binade. *)
Lemma RN_binade (x : R) (e : Z) :
  fp.pow2 (e - 1) <= x < fp.pow2 e ->
  fp.pow2 (e - 1) <= fp.RN x <= fp.pow2 e.
Proof.
  intros [H1 H2].
  assert (Hx : 0 < x) by (apply Rlt_le_trans with (2 := H1), pow2_pos).
  assert (Hm : fp.mag x = e).
  { apply mag_unique. rewrite Rabs_pos_eq by lra. now split. }
  unfold fp.RN. destruct (Req_dec_T x 0) as [E|_]; [lra|].
  pose proof (ulp_pos x) as Hu. pose proof (ulp_split x) as Hs.
  rewrite Hm in Hs.
  assert (Hs1 : fp.ulp x * 2 ^ 52 = fp.pow2 (e - 1)).
  { unfold fp.ulp. rewrite Hm, <- (pow2_nat 52), <- pow2_add. f_equal. lia. }
  set (r := x / fp.ulp x).
  assert (Hr : IZR (2 ^ 52) <= r <= IZR (2 ^ 53)).
  { unfold r. split.
    - apply Rmult_le_reg_r with (fp.ulp x); [exact Hu|].
      unfold Rdiv. rewrite Rmult_assoc, Rinv_l, Rmult_1_r by lra.
      rewrite <- Hs1 in H1. simpl. lra.
    - apply Rmult_le_reg_r with (fp.ulp x); [exact Hu|].
      unfold Rdiv. rewrite Rmult_assoc, Rinv_l, Rmult_1_r by lra.
      rewrite <- Hs in H2. simpl. lra. }
  destruct Hr as [Hr1 Hr2].
  apply rint_ge_int in Hr1. apply rint_le_int in Hr2.
  apply IZR_le in Hr1. apply IZR_le in Hr2.
  rewrite <- Hs1, <- Hs. simpl in Hr1, Hr2. split; nra.
Qed.

(** Integer powers of 2 under [IZR], evaluated. *)
Ltac eval_zpow :=
  repeat match goal with
  | |- context [(?a ^ ?b)%Z] =>
      let v := eval vm_compute in (a ^ b)%Z in change (a ^ b)%Z with v
  | H : context [(?a ^ ?b)%Z] |- _ =>
      let v := eval vm_compute in (a ^ b)%Z in change (a ^ b)%Z with v in H
  end;
  repeat match goal with
  | |- context [IZR (?a + ?b)] => rewrite (plus_IZR a b)
  | |- context [IZR (?a - ?b)] => rewrite (minus_IZR a b)
  | H : context [IZR (?a + ?b)] |- _ => rewrite (plus_IZR a b) in H
  | H : context [IZR (?a - ?b)] |- _ => rewrite (minus_IZR a b) in H
  end.

Lemma pow2_lt_inv (a b : Z) : fp.pow2 a < fp.pow2 b -> (a < b)%Z.
Proof.
  intros H. destruct (Z_lt_le_dec a b) as [Hlt|Hle]; [exact Hlt|].
  apply pow2_le in Hle. lra.
Qed.

(** In the binade of exponent [e] the doubles are the multiples of
    [2^(e-53)]. *)
Lemma RN_grid (x : R) (e : Z) :
  fp.pow2 (e - 1) <= x < fp.pow2 e ->
  fp.RN x = IZR (fp.rint (x / fp.pow2 (e - 53))) * fp.pow2 (e - 53).
Proof.
  intros [H1 H2].
  assert (Hx : 0 < x) by (apply Rlt_le_trans with (2 := H1), pow2_pos).
  assert (Hm : fp.mag x = e).
  { apply mag_unique. rewrite Rabs_pos_eq by lra. now split. }
  unfold fp.RN, fp.ulp. destruct (Req_dec_T x 0) as [E|_]; [lra|].
  now rewrite Hm.
Qed.

Lemma pow2_m1 : fp.pow2 (-1) = / 2.
Proof. change (-1)%Z with (- (1))%Z. now rewrite pow2_opp, pow2_1. Qed.

Lemma pow2_m53 : fp.pow2 (-53) = / 2 ^ 53.
Proof. change (-53)%Z with (- (53))%Z. now rewrite pow2_opp, pow2_53. Qed.

Lemma pow2_m52 : fp.pow2 (-52) = / 2 ^ 52.
Proof.
  change (-52)%Z with (- Z.of_nat 52)%Z. rewrite pow2_opp.
  now rewrite pow2_nat.
Qed.

(** Just below 1 the doubles are the multiples of [2^-53]. *)
Lemma RN_grid_below_1 (x : R) :
  / 2 <= x < 1 -> fp.RN x = IZR (fp.rint (x * 2 ^ 53)) / 2 ^ 53.
Proof.
  intros Hx. rewrite (RN_grid x 0).
  - change (0 - 53)%Z with (-53)%Z. rewrite pow2_m53.
    unfold Rdiv. now rewrite Rinv_inv.
  - change (0 - 1)%Z with (-1)%Z. rewrite pow2_m1, pow2_0. exact Hx.
Qed.

(** Just above 1 they are the multiples of [2^-52]. *)
Lemma RN_grid_above_1 (x : R) :
  1 <= x < 2 -> fp.RN x = IZR (fp.rint (x * 2 ^ 52)) / 2 ^ 52.
Proof.
  intros Hx. rewrite (RN_grid x 1).
  - change (1 - 53)%Z with (-52)%Z. rewrite pow2_m52.
    unfold Rdiv. now rewrite Rinv_inv.
  - change (1 - 1)%Z with 0%Z. rewrite pow2_0, pow2_1. exact Hx.
Qed.

Lemma RN_1 : fp.RN 1 = 1.
Proof.
  rewrite RN_grid_above_1 by lra.
  rewrite (rint_near _ (2 ^ 52)%Z).
  - eval_zpow. lra.
  - apply Rabs_def1; eval_zpow; lra.
Qed.


(** Absorption: what lies within [2^-54] below 1 rounds to 1. *)
Lemma RN_absorb_below (x : R) :
  1 - / 2 ^ 54 <= x <= 1 -> fp.RN x = 1.
Proof.
  intros [H1 H2]. destruct (Req_dec x 1) as [E|E]; [subst; apply RN_1|].
  rewrite RN_grid_below_1 by lra.
  assert (Hr : fp.rint (x * 2 ^ 53) = (2 ^ 53)%Z).
  { assert (fp.rint (x * 2 ^ 53) <= 2 ^ 53)%Z.
    { apply rint_le_int. eval_zpow. lra. }
    assert (2 ^ 53 - 1 + 1 <= fp.rint (x * 2 ^ 53))%Z; [|lia].
    destruct (Req_dec x (1 - / 2 ^ 54)) as [T|T].
    - rewrite (rint_tie _ (2 ^ 53 - 1)).
      + reflexivity.
      + subst x. eval_zpow. lra.
    - apply rint_gt_half. eval_zpow. lra. }
  rewrite Hr. eval_zpow. lra.
Qed.

Lemma RN_below_1 (x : R) :
  0 < x < 1 - / 2 ^ 54 -> 0 < fp.RN x <= 1 - / 2 ^ 53.
Proof.
  intros [H0 H1].
  destruct (Rle_lt_dec (/ 2) x) as [Hh|Hh].
  - rewrite RN_grid_below_1 by lra.
    assert (Hu : (fp.rint (x * 2 ^ 53) <= 2 ^ 53 - 1)%Z).
    { apply rint_lt_half. eval_zpow. lra. }
    assert (Hl : (2 ^ 52 <= fp.rint (x * 2 ^ 53))%Z).
    { apply rint_ge_int. eval_zpow. lra. }
    apply IZR_le in Hu, Hl. eval_zpow. split.
    + apply Rdiv_lt_0_compat; lra.
    + apply Rmult_le_reg_r with (2 ^ 53); [lra|].
      unfold Rdiv. rewrite Rmult_assoc, Rinv_l, Rmult_1_r by lra. lra.
  - assert (Hx0 : x <> 0) by lra.
    pose proof (mag_spec x Hx0) as [Hm1 Hm2].
    rewrite Rabs_pos_eq in Hm1, Hm2 by lra.
    pose proof (RN_binade x (fp.mag x) (conj Hm1 Hm2)) as [Hb1 Hb2].
    assert (Hm : (fp.mag x <= -1)%Z).
    { assert (fp.mag x - 1 < -1)%Z; [|lia].
      apply pow2_lt_inv. rewrite pow2_m1. lra. }
    apply pow2_le in Hm. rewrite pow2_m1 in Hm.
    pose proof (pow2_pos (fp.mag x - 1)). split; lra.
Qed.

(** Above 1, what lies within [2^-53] rounds to 1 and what lies beyond
    rounds to at least the next double [1 + 2^-52]. *)
Lemma RN_absorb_above (x : R) :
  1 <= x <= 1 + / 2 ^ 53 -> fp.RN x = 1.
Proof.
  intros [H1 H2]. rewrite RN_grid_above_1 by lra.
  assert (Hr : fp.rint (x * 2 ^ 52) = (2 ^ 52)%Z).
  { assert (2 ^ 52 <= fp.rint (x * 2 ^ 52))%Z.
    { apply rint_ge_int. eval_zpow. lra. }
    assert (fp.rint (x * 2 ^ 52) <= 2 ^ 52)%Z; [|lia].
    destruct (Req_dec x (1 + / 2 ^ 53)) as [T|T].
    - rewrite (rint_tie _ (2 ^ 52)).
      + reflexivity.
      + subst x. eval_zpow. lra.
    - apply rint_lt_half. eval_zpow. lra. }
  rewrite Hr. eval_zpow. lra.
Qed.

Lemma RN_above_1 (x : R) :
  1 + / 2 ^ 53 < x -> 1 + / 2 ^ 52 <= fp.RN x.
Proof.
  intros H1. destruct (Rlt_le_dec x 2) as [H2|H2].
  - rewrite RN_grid_above_1 by lra.
    assert (Hl : (2 ^ 52 + 1 <= fp.rint (x * 2 ^ 52))%Z).
    { apply rint_gt_half. eval_zpow. lra. }
    apply IZR_le in Hl. eval_zpow.
    apply Rmult_le_reg_r with (2 ^ 52); [lra|].
    unfold Rdiv. rewrite Rmult_assoc, Rinv_l, Rmult_1_r by lra. lra.
  - pose proof (RN_error_rel x) as H. rewrite (Rabs_pos_eq x) in H by lra.
    apply Rabs_le_inv in H. lra.
Qed.

Lemma RN_negative (x : R) : x < 0 -> fp.RN x < 0.
Proof.
  intros Hx. pose proof (RN_error_rel x) as H.
  rewrite (Rabs_left x) in H by exact Hx. apply Rabs_le_inv in H. lra.
Qed.

Lemma RN_unit_interval (x : R) : 0 <= x <= 1 -> 0 <= fp.RN x <= 1.
Proof.
  intros [H0 H1].
  destruct (Req_dec x 0) as [E|E]; [subst; rewrite RN_0; lra|].
  destruct (Rle_lt_dec (1 - / 2 ^ 54) x) as [H|H].
  - rewrite RN_absorb_below by lra. lra.
  - pose proof (RN_below_1 x). lra.
Qed.

Lemma RN_at_least_half (x : R) : / 2 <= x <= 1 -> / 2 <= fp.RN x.
Proof.
  intros [H0 H1].
  destruct (Req_dec x 1) as [E|E]; [subst; rewrite RN_1; lra|].
  pose proof (RN_binade x 0) as H.
  change (0 - 1)%Z with (-1)%Z in H. rewrite pow2_m1, pow2_0 in H. lra.
Qed.

(** ** Elementary facts on logarithms and powers *)

Lemma ln10_pos : 0 < ln 10.
Proof.
  rewrite <- ln_1. apply ln_increasing; lra.
Qed.

Lemma log10R_increasing (x y : R) :
  0 < x -> x < y -> np.log10R x < np.log10R y.
Proof.
  intros Hx Hxy. unfold np.log10R, Rdiv.
  apply Rmult_lt_compat_r.
  - apply Rinv_0_lt_compat, ln10_pos.
  - now apply ln_increasing.
Qed.

Lemma power10_log10R (y : R) : 0 < y -> np.power 10 (np.log10R y) = y.
Proof.
  intros Hy. unfold np.power, Rpower, np.log10R.
  replace (ln y / ln 10 * ln 10) with (ln y).
  - now apply exp_ln.
  - field. apply Rgt_not_eq, ln10_pos.
Qed.

Lemma neg_ln_pos (p : R) : 0 < p < 1 -> 0 < - ln p.
Proof.
  intros [H0 H1].
  assert (ln p < ln 1) by (apply ln_increasing; lra).
  rewrite ln_1 in H. lra.
Qed.

Lemma gammainc_1 (x : R) : special.gammainc 1 x = 1 - exp (- x).
Proof.
  simpl. unfold special.poisson_pmf. simpl. field.
Qed.

(** At shape 1 the inverse has the closed form [- ln (1 - y)]. *)
Lemma gammaincinv_1 (y : R) :
  0 <= y < 1 -> special.gammaincinv 1 y = Fin (- ln (1 - y)).
Proof.
  intros Hy. unfold special.gammaincinv.
  change (Nat.eqb 1 0) with false. cbv iota.
  destruct (Rlt_dec y 0) as [H|_]; [lra|].
  destruct (Rlt_dec 1 y) as [H|_]; [lra|].
  destruct (Req_dec_T y 1) as [H|_]; [lra|].
  f_equal.
  assert (Hex : exists x, 0 <= x /\ special.gammainc 1 x = y).
  { exists (- ln (1 - y)). split.
    - destruct (Req_dec y 0) as [E|E].
      + subst y. replace (1 - 0) with 1 by ring. rewrite ln_1. lra.
      + apply Rlt_le, neg_ln_pos. lra.
    - rewrite gammainc_1. replace (- - ln (1 - y)) with (ln (1 - y)) by ring.
      rewrite exp_ln by lra. ring. }
  destruct (epsilon_spec (inhabits 0) _ Hex) as [_ He].
  rewrite gammainc_1 in He.
  assert (E : exp (- epsilon (inhabits 0)
                     (fun x => 0 <= x /\ special.gammainc 1 x = y))
              = 1 - y) by lra.
  rewrite <- E, ln_exp. ring.
Qed.

Lemma ln2_bounds : / 2 < ln 2 < 1.
Proof.
  split.
  - assert (H : exp (/ 2) < 2).
    { assert (Hsq : exp (/ 2) * exp (/ 2) <= 3).
      { rewrite <- exp_plus. replace (/ 2 + / 2) with 1 by field.
        apply exp_le_3. }
      pose proof (exp_pos (/ 2)) as Hpos.
      destruct (Rlt_dec (exp (/ 2)) 2) as [Hlt|Hge]; [exact Hlt|].
      assert (2 <= exp (/ 2)) by lra. nra. }
    rewrite <- (ln_exp (/ 2)). apply ln_increasing; [apply exp_pos | exact H].
  - apply Rlt_le_trans with (ln (exp 1)); [|rewrite ln_exp; lra].
    apply ln_increasing; [lra|]. pose proof (exp_ineq1 1). lra.
Qed.

Lemma log10R_power10 (e : R) : np.log10R (np.power 10 e) = e.
Proof.
  unfold np.log10R, np.power, Rpower. rewrite ln_exp.
  field. apply Rgt_not_eq, ln10_pos.
Qed.

Lemma log10R_sign (y : R) :
  0 < y -> (np.log10R y < 0 <-> y < 1) /\ (0 < np.log10R y <-> 1 < y).
Proof.
  intros Hy. pose proof ln10_pos as H10.
  assert (Hq : 0 < / ln 10) by now apply Rinv_0_lt_compat.
  unfold np.log10R, Rdiv.
  assert (Hl : (ln y < 0 <-> y < 1) /\ (0 < ln y <-> 1 < y)).
  { rewrite <- ln_1. split; split; intros H.
    - apply ln_lt_inv; lra.
    - apply ln_increasing; lra.
    - apply ln_lt_inv; lra.
    - apply ln_increasing; lra. }
  destruct Hl as [[A1 A2] [B1 B2]].
  split; split; intros H.
  - apply A1. nra.
  - apply A2 in H. nra.
  - apply B1. nra.
  - apply B2 in H. nra.
Qed.

Lemma log10R_10 : np.log10R 10 = 1.
Proof.
  unfold np.log10R. field. apply Rgt_not_eq, ln10_pos.
Qed.

Lemma log10R_100 : np.log10R 100 = 2.
Proof.
  unfold np.log10R. replace 100 with (10 * 10) by lra.
  rewrite ln_mult by lra. field. apply Rgt_not_eq, ln10_pos.
Qed.

Lemma log10R_Rinv (y : R) : 0 < y -> np.log10R (/ y) = - np.log10R y.
Proof.
  intros Hy. unfold np.log10R. rewrite ln_Rinv by exact Hy.
  field. apply Rgt_not_eq, ln10_pos.
Qed.

Lemma exp_nat_bounds (n : nat) : 2 ^ n <= exp (INR n) <= 3 ^ n.
Proof.
  induction n as [|n [IHl IHu]].
  - simpl. rewrite exp_0. lra.
  - rewrite S_INR, exp_plus. simpl pow.
    pose proof exp_le_3 as H3.
    assert (H2 : 2 <= exp 1) by (pose proof (exp_ineq1 1); lra).
    assert (0 < 2 ^ n) by (apply pow_lt; lra).
    pose proof (exp_pos (INR n)). split; nra.
Qed.

Lemma power10_pos (e : R) : 0 < np.power 10 e.
Proof.
  unfold np.power, Rpower. apply exp_pos.
Qed.

Lemma power10_monotone (a b : R) : a <= b -> Rpower 10 a <= Rpower 10 b.
Proof.
  intros Hab. unfold Rpower. pose proof ln10_pos as H10.
  destruct (Rle_lt_or_eq_dec a b Hab) as [Hlt|Heq]; [|subst; lra].
  apply Rlt_le, exp_increasing. now apply Rmult_lt_compat_r.
Qed.

Lemma power10_shift_log10_2 (snr : R) :
  Rpower 10 ((snr + 10 * np.log10R 2) / 10) = 2 * Rpower 10 (snr / 10).
Proof.
  replace ((snr + 10 * np.log10R 2) / 10) with (snr / 10 + np.log10R 2)
    by field.
  rewrite Rpower_plus.
  change (Rpower 10 (np.log10R 2)) with (np.power 10 (np.log10R 2)).
  rewrite power10_log10R by lra. ring.
Qed.

Lemma div2_even_shape (j : nat) : Nat.div2 (2 + 2 * j) = S j.
Proof.
  replace (2 + 2 * j)%nat with (2 * S j)%nat by lia.
  apply Nat.div2_double.
Qed.

Lemma chi2_cdf_2 (x : R) : 0 < x -> dist.chi2_cdf 2 x = 1 - exp (- (x / 2)).
Proof.
  intros Hx. unfold dist.chi2_cdf.
  destruct (Rle_dec x 0) as [H|_]; [lra|].
  change (Nat.div2 2) with 1%nat. apply gammainc_1.
Qed.


(** ** Series and derivatives *)

(** A series that converges has its limit for sum. *)
Lemma series_sum_cv (a : nat -> R) (l : R) :
  Un_cv (sum_f_R0 a) l -> series_sum a = l.
Proof.
  intros Hcv. unfold series_sum.
  destruct (excluded_middle_informative _) as [H|H].
  - destruct (constructive_indefinite_description _ H) as [l' Hl']. simpl.
    exact (UL_sequence _ _ _ Hl' Hcv).
  - exfalso. apply H. now exists l.
Qed.

Lemma derivable_pt_lim_eq (f g : R -> R) (x l : R) :
  (forall z, f z = g z) -> derivable_pt_lim f x l -> derivable_pt_lim g x l.
Proof.
  intros E H eps Heps. destruct (H eps Heps) as [d Hd].
  exists d. intros h Hh Hlt. rewrite <- !E. now apply Hd.
Qed.

(** ** The incomplete gamma function at integer shapes

    [special.gammainc (S n)] vanishes at 0 and has the gamma density
    [exp(-z) z^n / n!] for derivative: it is the regularized integral of
    that density from 0. *)

Lemma poisson_pmf_nonneg (mu : R) (j : nat) :
  0 <= mu -> 0 <= special.poisson_pmf mu j.
Proof.
  intros Hmu. unfold special.poisson_pmf, Rdiv.
  apply Rmult_le_pos; [apply Rmult_le_pos|].
  - apply Rlt_le, exp_pos.
  - now apply pow_le.
  - apply Rlt_le, Rinv_0_lt_compat, INR_fact_lt_0.
Qed.

Lemma poisson_pmf_0 (mu : R) : special.poisson_pmf mu 0 = exp (- mu).
Proof.
  unfold special.poisson_pmf. simpl. field.
Qed.

Lemma derivable_pt_lim_exp_opp (z : R) :
  derivable_pt_lim (fun t => exp (- t)) z (- exp (- z)).
Proof.
  apply derivable_pt_lim_eq with (f := comp exp (- id)%F); [reflexivity|].
  replace (- exp (- z)) with (exp (- z) * - 1) by ring.
  apply derivable_pt_lim_comp.
  - apply derivable_pt_lim_opp, derivable_pt_lim_id.
  - apply derivable_pt_lim_exp.
Qed.

Lemma derivable_pt_lim_poisson_pmf_S (n : nat) (z : R) :
  derivable_pt_lim (fun t => special.poisson_pmf t (S n)) z
    (special.poisson_pmf z n - special.poisson_pmf z (S n)).
Proof.
  pose proof (INR_fact_neq_0 n) as Hf.
  assert (HS : INR (S n) <> 0) by (apply not_0_INR; lia).
  apply derivable_pt_lim_eq
    with (f := mult_real_fct (/ INR (fact (S n)))
                 ((fun t => exp (- t)) * (fun t => t ^ S n))%F).
  - intros t. unfold mult_real_fct, mult_fct, special.poisson_pmf. field.
    apply INR_fact_neq_0.
  - replace (special.poisson_pmf z n - special.poisson_pmf z (S n))
      with (/ INR (fact (S n))
            * (- exp (- z) * z ^ S n
               + exp (- z) * (INR (S n) * z ^ pred (S n)))).
    + apply derivable_pt_lim_scal.
      apply (derivable_pt_lim_mult (fun t => exp (- t)) (fun t => t ^ S n) z
               (- exp (- z)) (INR (S n) * z ^ pred (S n))).
      * apply derivable_pt_lim_exp_opp.
      * apply derivable_pt_lim_pow.
    + unfold special.poisson_pmf. rewrite fact_simpl, mult_INR.
      change (pred (S n)) with n. field. now split.
Qed.

(** The derivative of [P(n+1, .)] is the density [exp(-z) z^n / n!] of the
    gamma distribution of shape [n+1]. *)
Lemma derivable_pt_lim_gammainc (n : nat) (z : R) :
  derivable_pt_lim (special.gammainc (S n)) z (special.poisson_pmf z n).
Proof.
  induction n as [|n IH].
  - apply derivable_pt_lim_eq with (f := (fct_cte 1 - (fun t => exp (- t)))%F).
    + intros t. unfold minus_fct, fct_cte. now rewrite gammainc_1.
    + rewrite poisson_pmf_0.
      replace (exp (- z)) with (0 - - exp (- z)) at 1 by ring.
      apply derivable_pt_lim_minus.
      * apply derivable_pt_lim_const.
      * apply derivable_pt_lim_exp_opp.
  - apply derivable_pt_lim_eq
      with (f := (special.gammainc (S n)
                  - (fun t => special.poisson_pmf t (S n)))%F).
    + intros t. reflexivity.
    + replace (special.poisson_pmf z (S n))
        with (special.poisson_pmf z n
              - (special.poisson_pmf z n - special.poisson_pmf z (S n)))
        at 1 by ring.
      apply derivable_pt_lim_minus; [exact IH|].
      apply derivable_pt_lim_poisson_pmf_S.
Qed.

Lemma gammainc_S_0 (n : nat) : special.gammainc (S n) 0 = 0.
Proof.
  induction n as [|n IH].
  - rewrite gammainc_1. replace (- 0) with 0 by ring. rewrite exp_0. ring.
  - change (special.gammainc (S (S n)) 0)
      with (special.gammainc (S n) 0 - special.poisson_pmf 0 (S n)).
    rewrite IH. unfold special.poisson_pmf. rewrite pow_i by lia.
    unfold Rdiv. ring.
Qed.

(** [P(n, .)] is non-decreasing on the non-negative axis. *)
Lemma gammainc_monotone (n : nat) (a b : R) :
  0 <= a -> a <= b -> special.gammainc n a <= special.gammainc n b.
Proof.
  intros Ha Hab. destruct n as [|n]; [simpl; lra|].
  destruct (Rle_lt_or_eq_dec a b Hab) as [Hlt|Heq]; [|subst; lra].
  destruct (MVT_cor2 (special.gammainc (S n))
              (fun z => special.poisson_pmf z n) a b Hlt) as [c [Hc Hin]].
  - intros c _. apply derivable_pt_lim_gammainc.
  - assert (0 <= special.poisson_pmf c n) by (apply poisson_pmf_nonneg; lra).
    assert (0 <= special.poisson_pmf c n * (b - a)).
    { apply Rmult_le_pos; lra. }
    lra.
Qed.

Lemma gammainc_bounds (n : nat) (z : R) :
  0 <= z -> 0 <= special.gammainc n z <= 1.
Proof.
  intros Hz. split.
  - destruct n as [|n]; [simpl; lra|].
    rewrite <- (gammainc_S_0 n). apply gammainc_monotone; lra.
  - induction n as [|n IH]; [simpl; lra|].
    simpl. pose proof (poisson_pmf_nonneg z n Hz). lra.
Qed.

Lemma gammainc_1_pos (z : R) : 0 < z -> 0 < special.gammainc 1 z.
Proof.
  intros Hz. rewrite gammainc_1.
  assert (exp (- z) < exp 0) by (apply exp_increasing; lra).
  rewrite exp_0 in H. lra.
Qed.

(** ** The Poisson mixture with 2 degrees of freedom *)

Section Mixture.

(** [mu] is half the non-centrality and [y] half the point of
    evaluation. *)
Variables mu y : R.

(** The survival function of the truncated mixture, with the sum taken
    over the other index: every term is a product of a Poisson weight in
    [y] and an incomplete gamma function in [mu]. *)
Lemma mixture_survival (N : nat) :
  1 - mixture_partial mu y N
  = special.gammainc (S N) mu * special.gammainc (S N) y
    + sum_f_R0 (fun k => special.poisson_pmf y k * special.gammainc k mu) N.
Proof.
  unfold mixture_partial. induction N as [|N IH].
  - simpl. ring.
  - rewrite !tech5. unfold Rminus in *.
    rewrite Ropp_plus_distr, <- Rplus_assoc, IH. simpl. ring.
Qed.

Hypothesis Hmu : 0 <= mu.
Hypothesis Hy : 0 <= y.

Lemma mixture_term_nonneg (j : nat) :
  0 <= special.poisson_pmf mu j * special.gammainc (S j) y.
Proof.
  apply Rmult_le_pos.
  - now apply poisson_pmf_nonneg.
  - now apply gammainc_bounds.
Qed.

Lemma mixture_partial_bounds (N : nat) : 0 <= mixture_partial mu y N <= 1.
Proof.
  split.
  - apply cond_pos_sum. intros n. apply mixture_term_nonneg.
  - pose proof (mixture_survival N) as H.
    assert (0 <= special.gammainc (S N) mu * special.gammainc (S N) y).
    { apply Rmult_le_pos; now apply gammainc_bounds. }
    assert (0 <= sum_f_R0 (fun k => special.poisson_pmf y k
                                    * special.gammainc k mu) N).
    { apply cond_pos_sum. intros n. apply Rmult_le_pos.
      - now apply poisson_pmf_nonneg.
      - now apply gammainc_bounds. }
    lra.
Qed.

Lemma mixture_growing : Un_growing (mixture_partial mu y).
Proof.
  intros n. unfold mixture_partial. rewrite tech5.
  pose proof (mixture_term_nonneg (S n)). lra.
Qed.

Lemma mixture_cv : exists l, Un_cv (mixture_partial mu y) l.
Proof.
  destruct (growing_cv _ mixture_growing) as [l Hl].
  - exists 1. intros v [n Hn]. subst v. apply mixture_partial_bounds.
  - now exists l.
Qed.

End Mixture.

Lemma Un_cv_eq (U V : nat -> R) (l : R) :
  (forall n, U n = V n) -> Un_cv U l -> Un_cv V l.
Proof.
  intros E H eps Heps. destruct (H eps Heps) as [N HN].
  exists N. intros n Hn. rewrite <- E. now apply HN.
Qed.

Lemma Un_cv_const (c : R) : Un_cv (fun _ => c) c.
Proof.
  intros eps Heps. exists 0%nat. intros n _.
  unfold R_dist. replace (c - c) with 0 by ring. now rewrite Rabs_R0.
Qed.

Lemma ncx2_term_2 (nc x : R) (j : nat) :
  0 < x ->
  dist.ncx2_term 2 nc x j
  = special.poisson_pmf (nc / 2) j * special.gammainc (S j) (x / 2).
Proof.
  intros Hx. unfold dist.ncx2_term, dist.chi2_cdf.
  destruct (Rle_dec x 0) as [H|_]; [lra|].
  now rewrite div2_even_shape.
Qed.

Lemma ncx2_partial_2 (nc x : R) (N : nat) :
  0 < x -> dist.ncx2_partial 2 nc x N = mixture_partial (nc / 2) (x / 2) N.
Proof.
  intros Hx. unfold dist.ncx2_partial, mixture_partial. apply sum_eq.
  intros j _. now apply ncx2_term_2.
Qed.

(** For a non-negative non-centrality and a positive point the mixture
    converges, and [dist.ncx2_cdf] is its sum. *)
Lemma ncx2_cdf_cv (nc x : R) :
  0 <= nc -> 0 < x ->
  Un_cv (dist.ncx2_partial 2 nc x) (dist.ncx2_cdf 2 nc x).
Proof.
  intros Hnc Hx.
  destruct (mixture_cv (nc / 2) (x / 2)) as [l Hl]; [lra | lra |].
  assert (Hcv : Un_cv (dist.ncx2_partial 2 nc x) l).
  { apply Un_cv_eq with (2 := Hl). intros n. symmetry.
    now apply ncx2_partial_2. }
  unfold dist.ncx2_cdf. now rewrite (series_sum_cv _ l Hcv).
Qed.

Lemma ncx2_partial_bounds (nc x : R) (N : nat) :
  0 <= nc -> 0 < x -> 0 <= dist.ncx2_partial 2 nc x N <= 1.
Proof.
  intros Hnc Hx. rewrite ncx2_partial_2 by exact Hx.
  apply mixture_partial_bounds; lra.
Qed.

Lemma ncx2_partial_growing (nc x : R) :
  0 <= nc -> 0 < x -> Un_growing (dist.ncx2_partial 2 nc x).
Proof.
  intros Hnc Hx n. rewrite !ncx2_partial_2 by exact Hx.
  apply mixture_growing; lra.
Qed.

Lemma ncx2_cdf_bounds (nc x : R) :
  0 <= nc -> 0 < x -> 0 <= dist.ncx2_cdf 2 nc x <= 1.
Proof.
  intros Hnc Hx. pose proof (ncx2_cdf_cv nc x Hnc Hx) as Hcv. split.
  - apply Rle_cv_lim with (fun _ : nat => 0) (dist.ncx2_partial 2 nc x).
    + intros n. now apply ncx2_partial_bounds.
    + apply Un_cv_const.
    + exact Hcv.
  - apply Rle_cv_lim with (dist.ncx2_partial 2 nc x) (fun _ : nat => 1).
    + intros n. now apply ncx2_partial_bounds.
    + exact Hcv.
    + apply Un_cv_const.
Qed.

(** Without signal ([nc = 0]) the mixture is its first term, the central
    chi-squared CDF. *)
Lemma ncx2_cdf_central (x : R) :
  0 < x -> dist.ncx2_cdf 2 0 x = dist.chi2_cdf 2 x.
Proof.
  intros Hx.
  apply UL_sequence with (dist.ncx2_partial 2 0 x);
    [apply ncx2_cdf_cv; lra|].
  apply Un_cv_eq with (U := fun _ : nat => dist.chi2_cdf 2 x);
    [|apply Un_cv_const].
  intros N. rewrite ncx2_partial_2, chi2_cdf_2 by exact Hx.
  unfold mixture_partial. replace (0 / 2) with 0 by field.
  induction N as [|N IH].
  - cbn [sum_f_R0]. rewrite poisson_pmf_0, gammainc_1.
    replace (- 0) with 0 by ring. rewrite exp_0. ring.
  - rewrite tech5, <- IH.
    assert (E : special.poisson_pmf 0 (S N) = 0).
    { unfold special.poisson_pmf. rewrite pow_i by lia. unfold Rdiv. ring. }
    rewrite E. ring.
Qed.

(** The CDF does not increase with the non-centrality. *)
Lemma ncx2_cdf_antitone (nc1 nc2 x : R) :
  0 <= nc1 -> nc1 <= nc2 -> 0 < x ->
  dist.ncx2_cdf 2 nc2 x <= dist.ncx2_cdf 2 nc1 x.
Proof.
  intros H1 H12 Hx.
  apply Rle_cv_lim
    with (dist.ncx2_partial 2 nc2 x) (dist.ncx2_partial 2 nc1 x).
  - intros N. rewrite !ncx2_partial_2 by exact Hx.
    pose proof (mixture_survival (nc1 / 2) (x / 2) N) as E1.
    pose proof (mixture_survival (nc2 / 2) (x / 2) N) as E2.
    assert (Hg : forall k,
               special.gammainc k (nc1 / 2) <= special.gammainc k (nc2 / 2)).
    { intros k. apply gammainc_monotone; lra. }
    assert (Hprod : special.gammainc (S N) (nc1 / 2)
                    * special.gammainc (S N) (x / 2)
                    <= special.gammainc (S N) (nc2 / 2)
                       * special.gammainc (S N) (x / 2)).
    { apply Rmult_le_compat_r; [|apply Hg].
      apply gammainc_bounds; lra. }
    assert (Hsum : sum_f_R0 (fun k => special.poisson_pmf (x / 2) k
                                      * special.gammainc k (nc1 / 2)) N
                   <= sum_f_R0 (fun k => special.poisson_pmf (x / 2) k
                                         * special.gammainc k (nc2 / 2)) N).
    { apply sum_growing. intros k. apply Rmult_le_compat_l; [|apply Hg].
      apply poisson_pmf_nonneg; lra. }
    lra.
  - apply ncx2_cdf_cv; lra.
  - apply ncx2_cdf_cv; lra.
Qed.

(** On the diagonal [mu = y] the truncated survival function is one half
    plus two halves of squares. *)
Lemma mixture_survival_diag (s : R) (N : nat) :
  1 - mixture_partial s s N
  = / 2 + / 2 * (special.gammainc (S N) s * special.gammainc (S N) s)
    + / 2 * sum_f_R0 (fun k => special.poisson_pmf s k
                               * special.poisson_pmf s k) N.
Proof.
  unfold mixture_partial. induction N as [|N IH].
  - simpl. field.
  - rewrite !tech5. unfold Rminus in *.
    rewrite Ropp_plus_distr, <- Rplus_assoc, IH. simpl. field.
Qed.

Lemma sum_squares_first (a : nat -> R) (N : nat) :
  a 0%nat * a 0%nat <= sum_f_R0 (fun k => a k * a k) N.
Proof.
  induction N as [|N IH]; [simpl; lra|].
  rewrite tech5. pose proof (Rle_0_sqr (a (S N))) as H. unfold Rsqr in H. lra.
Qed.

(** When the non-centrality equals the point, the CDF lies strictly
    between 0 and one half. *)
Lemma ncx2_cdf_diag (x : R) :
  0 < x -> 0 < dist.ncx2_cdf 2 x x < / 2.
Proof.
  intros Hx. pose proof (ncx2_cdf_cv x x (Rlt_le _ _ Hx) Hx) as Hcv. split.
  - apply Rlt_le_trans with (dist.ncx2_partial 2 x x 0).
    + rewrite ncx2_partial_2 by exact Hx. simpl.
      apply Rmult_lt_0_compat.
      * rewrite poisson_pmf_0. apply exp_pos.
      * apply (gammainc_1_pos (x / 2)). lra.
    + apply growing_ineq; [|exact Hcv]. apply ncx2_partial_growing; lra.
  - set (e := exp (- (x / 2))).
    assert (He : 0 < e) by apply exp_pos.
    apply Rle_lt_trans with (/ 2 - / 2 * (e * e)); [|nra].
    apply Rle_cv_lim
      with (dist.ncx2_partial 2 x x) (fun _ : nat => / 2 - / 2 * (e * e)).
    + intros N. rewrite ncx2_partial_2 by exact Hx.
      pose proof (mixture_survival_diag (x / 2) N) as E.
      pose proof (sum_squares_first (special.poisson_pmf (x / 2)) N) as Hs.
      rewrite poisson_pmf_0 in Hs. fold e in Hs.
      pose proof (Rle_0_sqr (special.gammainc (S N) (x / 2))) as Hq.
      unfold Rsqr in Hq. lra.
    + exact Hcv.
    + apply Un_cv_const.
Qed.

Lemma sum_first_two (a : nat -> R) (N : nat) :
  (forall k, 0 <= a k) -> a 0%nat + a 1%nat <= sum_f_R0 a (S N).
Proof.
  intros Ha. induction N as [|N IH]; [simpl; lra|].
  rewrite tech5. pose proof (Ha (S (S N))). lra.
Qed.

(** With a signal the CDF lies strictly between 0 and the central CDF. *)
Lemma ncx2_cdf_strict (nc x : R) :
  0 < nc -> 0 < x ->
  0 < dist.ncx2_cdf 2 nc x < 1 - exp (- (x / 2)).
Proof.
  intros Hnc Hx. pose proof (ncx2_cdf_cv nc x (Rlt_le _ _ Hnc) Hx) as Hcv.
  pose proof (ncx2_partial_growing nc x (Rlt_le _ _ Hnc) Hx) as Hgr.
  split.
  - apply Rlt_le_trans with (dist.ncx2_partial 2 nc x 0).
    + rewrite ncx2_partial_2 by exact Hx. unfold mixture_partial. simpl.
      apply Rmult_lt_0_compat.
      * rewrite poisson_pmf_0. apply exp_pos.
      * apply (gammainc_1_pos (x / 2)). lra.
    + now apply growing_ineq.
  - set (y := x / 2). set (mu := nc / 2).
    assert (Hy : 0 < y) by (unfold y; lra).
    assert (Hmu : 0 < mu) by (unfold mu; lra).
    set (g := special.poisson_pmf y 1 * special.gammainc 1 mu).
    assert (Hg : 0 < g).
    { unfold g. apply Rmult_lt_0_compat; [|now apply gammainc_1_pos].
      unfold special.poisson_pmf. apply Rdiv_lt_0_compat.
      - apply Rmult_lt_0_compat; [apply exp_pos | now apply pow_lt].
      - apply INR_fact_lt_0. }
    apply Rle_lt_trans with (1 - exp (- y) - g); [|lra].
    assert (Hb : forall N, dist.ncx2_partial 2 nc x (S N)
                           <= 1 - exp (- y) - g).
    { intros N. rewrite ncx2_partial_2 by exact Hx. fold y mu.
      pose proof (mixture_survival mu y (S N)) as E.
      assert (0 <= special.gammainc (S (S N)) mu
                   * special.gammainc (S (S N)) y).
      { apply Rmult_le_pos; apply gammainc_bounds; lra. }
      assert (Hnn : forall k,
                 0 <= special.poisson_pmf y k * special.gammainc k mu).
      { intros k. apply Rmult_le_pos.
        - apply poisson_pmf_nonneg; lra.
        - apply gammainc_bounds; lra. }
      pose proof (sum_first_two _ N Hnn) as Hs. cbv beta in Hs.
      change (special.gammainc 0 mu) with 1 in Hs.
      rewrite poisson_pmf_0 in Hs. fold g in Hs. lra. }
    apply Rle_cv_lim
      with (dist.ncx2_partial 2 nc x) (fun _ : nat => 1 - exp (- y) - g);
      [|exact Hcv|apply Un_cv_const].
    intros [|N]; [|apply Hb].
    apply Rle_trans with (dist.ncx2_partial 2 nc x 1); [apply Hgr | apply Hb].
Qed.

(** The CDF does not decrease with the point. *)
Lemma ncx2_cdf_monotone (nc x1 x2 : R) :
  0 <= nc -> 0 < x1 -> x1 <= x2 ->
  dist.ncx2_cdf 2 nc x1 <= dist.ncx2_cdf 2 nc x2.
Proof.
  intros Hnc H1 H12.
  apply Rle_cv_lim
    with (dist.ncx2_partial 2 nc x1) (dist.ncx2_partial 2 nc x2);
    [|apply ncx2_cdf_cv; lra|apply ncx2_cdf_cv; lra].
  intros N. rewrite !ncx2_partial_2 by lra. unfold mixture_partial.
  apply sum_growing. intros j. apply Rmult_le_compat_l.
  - apply poisson_pmf_nonneg; lra.
  - apply gammainc_monotone; lra.
Qed.

Lemma spec_factor_pos (isPeak : bool) : 0 < Spec.factor isPeak.
Proof.
  destruct isPeak; simpl; lra.
Qed.

Lemma spec_lambda_pos (snr : R) (isPeak : bool) : 0 < Spec.lambda snr isPeak.
Proof.
  unfold Spec.lambda. apply Rmult_lt_0_compat.
  - apply spec_factor_pos.
  - apply (power10_pos (snr / 10)).
Qed.

Lemma spec_x_pos (threshold : R) : 0 < Spec.x threshold.
Proof.
  unfold Spec.x. pose proof (power10_pos (threshold / 10)) as H.
  unfold np.power in H. lra.
Qed.

Lemma spec_x_half (threshold : R) :
  Spec.x threshold / 2 = np.power 10 (threshold / 10).
Proof.
  unfold Spec.x, np.power. field.
Qed.

Lemma spec_diag (t : R) : Spec.lambda t false = Spec.x t.
Proof.
  reflexivity.
Qed.


(** ** The ends of the range of doubles *)

Lemma overflow_threshold_large : 10 ^ 300 < fp.overflow_threshold.
Proof.
  unfold fp.overflow_threshold. lra.
Qed.

Lemma underflow_threshold_pos : 0 < fp.underflow_threshold.
Proof.
  unfold fp.underflow_threshold. apply Rinv_0_lt_compat. lra.
Qed.

Lemma underflow_threshold_small : fp.underflow_threshold < 1 / 10 ^ 320.
Proof.
  unfold fp.underflow_threshold.
  apply Rmult_lt_reg_r with (2 ^ 1075); [lra|]. rewrite Rinv_l by lra. lra.
Qed.


Lemma two_pow_m53_small : / 2 ^ 53 <= 1 / (4 * 10 ^ 9).
Proof.
  apply Rmult_le_reg_r with (2 ^ 53); [lra|]. rewrite Rinv_l by lra. lra.
Qed.

Lemma RN_error_unit (a : R) :
  0 <= a <= 1 -> Rabs (fp.RN a - a) <= / 2 ^ 53.
Proof.
  intros Ha. apply Rle_trans with (1 := RN_error_rel a).
  rewrite Rabs_pos_eq by lra. unfold Rdiv.
  assert (0 < / 2 ^ 53) by (apply Rinv_0_lt_compat; lra). nra.
Qed.

Lemma two_pow_m53_tiny : / 2 ^ 53 <= 1 / (9 * 10 ^ 15).
Proof.
  apply Rmult_le_reg_r with (2 ^ 53); [lra|]. rewrite Rinv_l by lra. lra.
Qed.

(** ** The subtraction [1 - p] and the value of the solver *)

(** A rate of at most [2^-54], or a negative one down to [-2^-53], is
    lost in the subtraction. *)
Lemma sub_1_absorbed (p : R) :
  - / 2 ^ 53 <= p <= / 2 ^ 54 -> pyfloat.sub 1 p = 1.
Proof.
  intros [H1 H2]. unfold pyfloat.sub.
  destruct (Rle_lt_dec 0 p) as [H|H].
  - apply RN_absorb_below. lra.
  - apply RN_absorb_above. lra.
Qed.

Lemma sub_1_below_1 (p : R) :
  / 2 ^ 54 < p < 1 -> 0 < pyfloat.sub 1 p <= 1 - / 2 ^ 53.
Proof.
  intros [H1 H2]. unfold pyfloat.sub. apply RN_below_1. lra.
Qed.

Lemma sub_1_above_1 (p : R) : p < - / 2 ^ 53 -> 1 < pyfloat.sub 1 p.
Proof.
  intros H. unfold pyfloat.sub.
  pose proof (RN_above_1 (1 - p)) as H1.
  assert (0 < / 2 ^ 52) by (apply Rinv_0_lt_compat; lra). lra.
Qed.

Lemma sub_1_negative (p : R) : 1 < p -> pyfloat.sub 1 p < 0.
Proof.
  intros H. unfold pyfloat.sub. apply RN_negative. lra.
Qed.

Lemma sub_1_error (p : R) :
  0 <= p <= 1 -> Rabs (pyfloat.sub 1 p - (1 - p)) <= / 2 ^ 53.
Proof.
  intros Hp. unfold pyfloat.sub.
  apply Rle_trans with (1 := RN_error_rel (1 - p)).
  rewrite Rabs_pos_eq by lra. unfold Rdiv.
  assert (0 < / 2 ^ 53) by (apply Rinv_0_lt_compat; lra). nra.
Qed.

(** The solver where the rounded [1 - p] is inside (0,1), and where it
    is 1. *)
Lemma solver_finite (p : R) :
  0 < pyfloat.sub 1 p < 1 ->
  snr_threshold_given_false_positive_rate p
  = Return (Fin (10 * np.log10R (- ln (1 - pyfloat.sub 1 p)))).
Proof.
  intros Hy. unfold snr_threshold_given_false_positive_rate.
  rewrite gammaincinv_1 by lra.
  assert (Hl : 0 < - ln (1 - pyfloat.sub 1 p)) by (apply neg_ln_pos; lra).
  unfold np.log10.
  destruct (Rlt_dec _ 0) as [H|_]; [lra|].
  destruct (Req_dec_T _ 0) as [H|_]; [lra|].
  reflexivity.
Qed.

Lemma solver_infinite (p : R) :
  pyfloat.sub 1 p = 1 ->
  snr_threshold_given_false_positive_rate p = Return PInf.
Proof.
  intros Hy. unfold snr_threshold_given_false_positive_rate.
  rewrite Hy. unfold special.gammaincinv.
  change (Nat.eqb 1 0) with false. cbv iota.
  destruct (Rlt_dec 1 0) as [H|_]; [lra|].
  destruct (Rlt_dec 1 1) as [H|_]; [lra|].
  destruct (Req_dec_T 1 1) as [_|H]; [|lra].
  simpl. destruct (Rlt_dec 0 10) as [_|H]; [reflexivity|lra].
Qed.

Lemma solver_nan (p : R) :
  pyfloat.sub 1 p < 0 \/ 1 < pyfloat.sub 1 p ->
  snr_threshold_given_false_positive_rate p = Return NaN.
Proof.
  intros Hy. unfold snr_threshold_given_false_positive_rate,
    special.gammaincinv.
  change (Nat.eqb 1 0) with false. cbv iota.
  destruct (Rlt_dec (pyfloat.sub 1 p) 0) as [_|H1]; [reflexivity|].
  destruct (Rlt_dec 1 (pyfloat.sub 1 p)) as [_|H2]; [reflexivity|lra].
Qed.

Lemma solver_at_one :
  snr_threshold_given_false_positive_rate 1 = Return NInf.
Proof.
  unfold snr_threshold_given_false_positive_rate, pyfloat.sub.
  replace (1 - 1) with 0 by ring. rewrite RN_0.
  rewrite gammaincinv_1 by lra.
  replace (1 - 0) with 1 by ring. rewrite ln_1. unfold np.log10.
  destruct (Rlt_dec (- 0) 0) as [H|_]; [lra|].
  destruct (Req_dec_T (- 0) 0) as [_|H]; [|lra].
  simpl. destruct (Rlt_dec 0 10) as [_|H]; [reflexivity|lra].
Qed.

(** ** Logarithms under a small relative change *)

Lemma ln_le_minus_1 (z : R) : 0 < z -> ln z <= z - 1.
Proof.
  intros Hz. destruct (Req_dec z 1) as [E|E].
  - subst z. rewrite ln_1. lra.
  - pose proof (exp_ineq1 (z - 1)) as H.
    assert (Hlt : z < exp (z - 1)) by (assert (z - 1 <> 0) by lra; lra).
    apply ln_increasing in Hlt; [|exact Hz]. rewrite ln_exp in Hlt. lra.
Qed.



(** ** The threshold solver: its value and its domain *)





(** C2 (as the code has it): for a false-positive rate [p <= 0] or
    [p >= 1] the solver raises nothing; it returns a value that is not
    finite: plus infinity from [-2^-53] to 0 (there [1 - p] rounds to 1),
    minus infinity at 1, NaN below [-2^-53] and above 1. *)
Theorem solver_outside_domain (p : R) :
  p <= 0 \/ 1 <= p ->
  ~ raises (snr_threshold_given_false_positive_rate p) /\
  exists v,
    snr_threshold_given_false_positive_rate p = Return v /\
    ~ is_finite v /\
    (- / 2 ^ 53 <= p <= 0 -> v = PInf) /\
    (p = 1 -> v = NInf) /\
    (p < - / 2 ^ 53 \/ 1 < p -> v = NaN).
Proof.
  intros Hp. split; [intros [e He]; discriminate He|].
  assert (H53 : 0 < / 2 ^ 53) by (apply Rinv_0_lt_compat; lra).
  assert (H54 : 0 < / 2 ^ 54) by (apply Rinv_0_lt_compat; lra).
  assert (Hnf : forall v, v = PInf \/ v = NInf \/ v = NaN -> ~ is_finite v).
  { intros v [E|[E|E]] [r Hr]; subst v; discriminate Hr. }
  destruct (Req_dec p 1) as [E1|E1].
  { subst p. exists NInf. split; [apply solver_at_one|].
    split; [apply Hnf; auto|]. repeat split; intros; try reflexivity; lra. }
  destruct (Rlt_dec 1 p) as [Hgt|Hgt].
  { exists NaN. split; [apply solver_nan; left; now apply sub_1_negative|].
    split; [apply Hnf; auto|]. repeat split; intros; try reflexivity; lra. }
  destruct (Rlt_dec p (- / 2 ^ 53)) as [Hlt|Hlt].
  { exists NaN. split; [apply solver_nan; right; now apply sub_1_above_1|].
    split; [apply Hnf; auto|]. repeat split; intros; try reflexivity; lra. }
  exists PInf. split; [apply solver_infinite, sub_1_absorbed; lra|].
  split; [apply Hnf; auto|]. repeat split; intros; try reflexivity; lra.
Qed.

Lemma solver_outside_domain_witness :
  (3 / 2 <= 0 \/ 1 <= 3 / 2) /\
  ~ raises (snr_threshold_given_false_positive_rate (3 / 2)) /\
  exists v,
    snr_threshold_given_false_positive_rate (3 / 2) = Return v /\
    ~ is_finite v /\
    (- / 2 ^ 53 <= 3 / 2 <= 0 -> v = PInf) /\
    (3 / 2 = 1 -> v = NInf) /\
    (3 / 2 < - / 2 ^ 53 \/ 1 < 3 / 2 -> v = NaN).
Proof.
  split; [right; lra | apply (solver_outside_domain (3 / 2)); right; lra].
Defined.

(** C2 as stated fails: at the rate 0 the solver returns plus infinity and
    raises no error. *)
Lemma solver_no_domain_error :
  snr_threshold_given_false_positive_rate 0 = Return PInf /\
  ~ raises (snr_threshold_given_false_positive_rate 0).
Proof.
  split.
  - apply solver_infinite, sub_1_absorbed.
    assert (0 < / 2 ^ 53) by (apply Rinv_0_lt_compat; lra).
    assert (0 < / 2 ^ 54) by (apply Rinv_0_lt_compat; lra). lra.
  - intros [e He]. discriminate He.
Qed.









(** ** The solver and the evaluator together *)






(** ** The CDF and a small change of the non-centrality *)

Lemma poisson_pmf_le_1 (c : R) (n : nat) :
  0 <= c -> special.poisson_pmf c n <= 1.
Proof.
  intros Hc.
  pose proof (gammainc_bounds (S n) c Hc) as [H0 _].
  pose proof (gammainc_bounds n c Hc) as [_ H1].
  change (special.gammainc (S n) c)
    with (special.gammainc n c - special.poisson_pmf c n) in H0. lra.
Qed.

(** [P(k, .)] moves by at most the change of its argument. *)
Lemma gammainc_lipschitz (k : nat) (a b : R) :
  0 <= a -> a <= b ->
  special.gammainc k b - special.gammainc k a <= b - a.
Proof.
  intros Ha Hab. destruct k as [|n]; [simpl; lra|].
  destruct (Rle_lt_or_eq_dec a b Hab) as [Hlt|Heq]; [|subst; lra].
  destruct (MVT_cor2 (special.gammainc (S n))
              (fun z => special.poisson_pmf z n) a b Hlt) as [c [Hc Hin]].
  - intros c _. apply derivable_pt_lim_gammainc.
  - assert (special.poisson_pmf c n <= 1) by (apply poisson_pmf_le_1; lra).
    rewrite Hc. nra.
Qed.

Lemma sum_poisson_pmf (y : R) (N : nat) :
  sum_f_R0 (fun k => special.poisson_pmf y k) N
  = 1 - special.gammainc (S N) y.
Proof.
  induction N as [|N IH].
  - simpl. ring.
  - rewrite tech5, IH.
    change (special.gammainc (S (S N)) y)
      with (special.gammainc (S N) y - special.poisson_pmf y (S N)). ring.
Qed.

Lemma mixture_lipschitz (mu1 mu2 y : R) (N : nat) :
  0 <= mu1 -> mu1 <= mu2 -> 0 <= y ->
  mixture_partial mu1 y N - mixture_partial mu2 y N <= mu2 - mu1.
Proof.
  intros H1 H12 Hy.
  pose proof (mixture_survival mu1 y N) as E1.
  pose proof (mixture_survival mu2 y N) as E2.
  pose proof (sum_poisson_pmf y N) as Es.
  assert (Hsum : forall n,
    sum_f_R0 (fun k => special.poisson_pmf y k * special.gammainc k mu2) n
    <= sum_f_R0 (fun k => special.poisson_pmf y k * special.gammainc k mu1) n
       + (mu2 - mu1) * sum_f_R0 (fun k => special.poisson_pmf y k) n).
  { intros n. induction n as [|n IH].
    - cbn [sum_f_R0 special.gammainc].
      pose proof (poisson_pmf_nonneg y 0 Hy). nra.
    - rewrite !tech5.
      pose proof (gammainc_lipschitz (S n) mu1 mu2 H1 H12).
      pose proof (poisson_pmf_nonneg y (S n) Hy). nra. }
  specialize (Hsum N).
  pose proof (gammainc_lipschitz (S N) mu1 mu2 H1 H12) as HL.
  pose proof (gammainc_bounds (S N) y Hy) as Hg.
  rewrite Es in Hsum. nra.
Qed.

(** The CDF falls by at most half the growth of the non-centrality. *)
Lemma ncx2_cdf_lipschitz (nc1 nc2 x : R) :
  0 <= nc1 -> nc1 <= nc2 -> 0 < x ->
  dist.ncx2_cdf 2 nc1 x - dist.ncx2_cdf 2 nc2 x <= (nc2 - nc1) / 2.
Proof.
  intros H1 H12 Hx.
  assert (H : dist.ncx2_cdf 2 nc1 x
              <= dist.ncx2_cdf 2 nc2 x + (nc2 - nc1) / 2); [|lra].
  apply Rle_cv_lim
    with (dist.ncx2_partial 2 nc1 x)
         (fun n => dist.ncx2_partial 2 nc2 x n + (nc2 - nc1) / 2).
  - intros N. rewrite !ncx2_partial_2 by exact Hx.
    pose proof (mixture_lipschitz (nc1 / 2) (nc2 / 2) (x / 2) N). lra.
  - apply ncx2_cdf_cv; lra.
  - apply CV_plus; [apply ncx2_cdf_cv; lra | apply Un_cv_const].
Qed.

(** [10^(d/10)] for a small [d]. *)
Lemma ln10_lt_4 : ln 10 < 4.
Proof.
  rewrite <- (ln_exp 4). apply ln_increasing; [lra|].
  pose proof (exp_nat_bounds 4) as [H _].
  replace (INR 4) with 4 in H by (simpl; lra). lra.
Qed.

Lemma power10_small (d : R) :
  Rabs d <= 1 -> Rabs (Rpower 10 (d / 10) - 1) <= 4 / 5 * Rabs d.
Proof.
  intros Hd. pose proof ln10_pos as H0. pose proof ln10_lt_4 as H4.
  unfold Rpower. set (z := d / 10 * ln 10).
  assert (Hz : Rabs z <= 2 / 5 * Rabs d).
  { unfold z. rewrite Rabs_mult, (Rabs_pos_eq (ln 10)) by lra.
    unfold Rdiv. rewrite Rabs_mult, (Rabs_pos_eq (/ 10)) by lra.
    pose proof (Rabs_pos d). nra. }
  assert (Hz1 : Rabs z <= 2 / 5) by lra.
  apply Rabs_le_inv in Hz1.
  assert (Hlo : z <= exp z - 1).
  { pose proof (exp_ineq1_le z). lra. }
  assert (Hhi : exp z - 1 <= 2 * Rabs z).
  { pose proof (exp_ineq1_le (- z)) as H. rewrite exp_Ropp in H.
    assert (Hp : 0 < exp z) by apply exp_pos.
    assert (Hi : 1 - z <= / exp z) by lra.
    assert (Hm : exp z * (1 - z) <= 1).
    { apply Rmult_le_reg_r with (/ exp z); [now apply Rinv_0_lt_compat|].
      rewrite Rmult_assoc, (Rmult_comm (1 - z)), <- Rmult_assoc.
      rewrite Rinv_r by lra. nra. }
    destruct (Rle_lt_dec 0 z) as [Hs|Hs].
    - rewrite (Rabs_pos_eq z) by exact Hs.
      assert (exp z <= / (1 - z)).
      { apply Rmult_le_reg_r with (1 - z); [lra|].
        rewrite Rinv_l by lra. exact Hm. }
      assert (/ (1 - z) <= 1 + 2 * z).
      { apply Rmult_le_reg_r with (1 - z); [lra|].
        rewrite Rinv_l by lra. nra. }
      lra.
    - assert (exp z < exp 0) by (apply exp_increasing; lra).
      rewrite exp_0 in *. pose proof (Rabs_pos z). lra. }
  pose proof (Rabs_pos d) as Hd0.
  apply Rabs_le. split.
  - apply Rle_trans with z; [|exact Hlo].
    pose proof (Rle_abs (- z)) as H. rewrite Rabs_Ropp in H. lra.
  - lra.
Qed.

(** ** The detection probability evaluator: overflow and value *)

Lemma Rpower_10_nat (n : nat) : Rpower 10 (IZR (Z.of_nat n)) = 10 ^ n.
Proof.
  rewrite <- INR_IZR_INZ. apply Rpower_pow. lra.
Qed.

(** Between -200 and 40 dB the power is a double: it does not overflow
    and is not lost to zero. *)
Lemma power10_in_range (e : R) :
  - 20 <= e <= 4 ->
  fp.underflow_threshold < Rpower 10 e <= 10 ^ 4.
Proof.
  intros [Hl Hu].
  pose proof (power10_monotone e 4 Hu) as Hm.
  change 4 with (IZR (Z.of_nat 4)) in Hm. rewrite Rpower_10_nat in Hm.
  pose proof (power10_monotone (- IZR (Z.of_nat 20)) e) as Hn.
  rewrite Rpower_Ropp, Rpower_10_nat in Hn.
  assert (H20 : / 10 ^ 20 <= Rpower 10 e).
  { apply Hn. rewrite <- opp_IZR. exact Hl. }
  assert (H320 : 1 / 10 ^ 320 < / 10 ^ 20).
  { unfold Rdiv. rewrite Rmult_1_l. apply Rinv_lt_contravar; [|lra].
    apply Rmult_lt_0_compat; lra. }
  pose proof underflow_threshold_small.
  lra.
Qed.

Lemma pow_10_returns (e : R) :
  - 20 <= e <= 4 -> pyfloat.pow 10 e = Return (Rpower 10 e).
Proof.
  intros He. destruct (power10_in_range e He) as [Hl Hu].
  pose proof overflow_threshold_large as Hov.
  unfold pyfloat.pow.
  destruct (Rle_dec fp.overflow_threshold (Rpower 10 e)) as [H|_]; [lra|].
  destruct (Rle_dec (Rpower 10 e) fp.underflow_threshold) as [H|_]; [lra|].
  reflexivity.
Qed.

(** A product of a factor 1 or 2 and such a power is a double. *)
Lemma mul_returns (k a : R) :
  0 < k <= 2 -> 0 < a <= 10 ^ 4 -> pyfloat.mul k a = Fin (k * a).
Proof.
  intros Hk Ha. pose proof overflow_threshold_large as Hov.
  unfold pyfloat.mul.
  assert (Hp : 0 < k * a) by (apply Rmult_lt_0_compat; lra).
  assert (Hu : k * a <= 2 * 10 ^ 4) by (apply Rmult_le_compat; lra).
  destruct (Rle_dec fp.overflow_threshold (Rabs (k * a))) as [Ho|_];
    [|reflexivity].
  rewrite Rabs_pos_eq in Ho by lra. lra.
Qed.

(** At 3090 dB it does. *)
Lemma pow_10_overflows : pyfloat.pow 10 (3090 / 10) = Raise OverflowError.
Proof.
  unfold pyfloat.pow.
  replace (3090 / 10) with (IZR (Z.of_nat 309)) by (simpl; lra).
  rewrite Rpower_10_nat.
  destruct (Rle_dec fp.overflow_threshold (10 ^ 309)) as [_|H];
    [reflexivity|].
  exfalso. apply H. unfold fp.overflow_threshold. lra.
Qed.

Lemma evaluator_overflows (snr : R) (isPeak : bool) :
  true_positive_rate_given_snr_and_threshold 3090 snr isPeak
  = Raise OverflowError.
Proof.
  unfold true_positive_rate_given_snr_and_threshold.
  now rewrite pow_10_overflows.
Qed.

Lemma evaluator_overflows_snr (isPeak : bool) :
  true_positive_rate_given_snr_and_threshold 0 3090 isPeak
  = Raise OverflowError.
Proof.
  unfold true_positive_rate_given_snr_and_threshold.
  rewrite pow_10_returns by lra. cbn [pyfloat.bind].
  now rewrite pow_10_overflows.
Qed.

(** Between -200 and 40 dB for both arguments the two powers are doubles
    and no guard of [ncx2.cdf] is taken: the evaluator returns one minus
    the sum of the mixture, rounded. *)
Lemma evaluator_value (threshold snr : R) (isPeak : bool) :
  - 200 <= threshold <= 40 -> - 200 <= snr <= 40 ->
  true_positive_rate_given_snr_and_threshold threshold snr isPeak
  = Return (Fin (fp.RN (1 - dist.ncx2_cdf 2 (Spec.lambda snr isPeak)
                                            (Spec.x threshold)))).
Proof.
  intros Ht Hs.
  pose proof (spec_lambda_pos snr isPeak) as Hl.
  pose proof (spec_x_pos threshold) as Hx.
  assert (Het : - 20 <= threshold / 10 <= 4) by lra.
  assert (Hes : - 20 <= snr / 10 <= 4) by lra.
  pose proof (power10_in_range _ Het) as [_ Pt].
  pose proof (power10_in_range _ Hes) as [_ Ps].
  pose proof (power10_pos (threshold / 10)) as Pt0.
  pose proof (power10_pos (snr / 10)) as Ps0. unfold np.power in Pt0, Ps0.
  unfold true_positive_rate_given_snr_and_threshold.
  rewrite !pow_10_returns by lra. cbn [pyfloat.bind].
  rewrite !mul_returns by (try destruct isPeak; simpl; lra).
  assert (E : (if negb isPeak then 2 else 1) * Rpower 10 (snr / 10)
              = Spec.lambda snr isPeak).
  { unfold Spec.lambda, Spec.factor. now destruct isPeak. }
  rewrite E. change (2 * Rpower 10 (threshold / 10)) with (Spec.x threshold).
  unfold nparray.ncx2_cdf, stats.ncx2_cdf.
  change (Nat.eqb 2 0) with false. cbv iota.
  destruct (Rlt_dec (Spec.lambda snr isPeak) 0) as [H|_]; [lra|].
  destruct (Rle_dec (Spec.x threshold) 0) as [H|_]; [lra|].
  reflexivity.
Qed.

(** The value the evaluator returns there is within [2^-53] of the
    survival function. *)
Lemma evaluator_close (threshold snr : R) (isPeak : bool) :
  - 200 <= threshold <= 40 -> - 200 <= snr <= 40 ->
  exists v,
    true_positive_rate_given_snr_and_threshold threshold snr isPeak
    = Return (Fin v) /\
    0 <= v <= 1 /\
    Rabs (v - (1 - dist.ncx2_cdf 2 (Spec.lambda snr isPeak)
                                   (Spec.x threshold))) <= / 2 ^ 53.
Proof.
  intros Ht Hs. eexists. split; [now apply evaluator_value|].
  assert (H : 0 <= 1 - dist.ncx2_cdf 2 (Spec.lambda snr isPeak)
                                       (Spec.x threshold) <= 1).
  { pose proof (ncx2_cdf_bounds _ _
                  (Rlt_le _ _ (spec_lambda_pos snr isPeak))
                  (spec_x_pos threshold)). lra. }
  split; [now apply RN_unit_interval | now apply RN_error_unit].
Qed.

Lemma survival_unit (nc x : R) :
  0 < nc -> 0 < x -> 0 <= 1 - dist.ncx2_cdf 2 nc x <= 1.
Proof.
  intros Hnc Hx. pose proof (ncx2_cdf_bounds nc x (Rlt_le _ _ Hnc) Hx). lra.
Qed.


(** ** The detection probability evaluator: the claims *)

(** C4 (as the code has it): for a threshold and a signal-to-noise ratio
    between -200 and 40 dB the evaluator returns, within 1e-9, one minus
    the CDF of the non-central chi-squared distribution with 2 degrees of
    freedom and non-centrality [factor * 10^(snr/10)] at
    [2 * 10^(threshold/10)], with the factor 1 for peak power and 2 for
    average power, which is the default. *)
Theorem evaluator_refines_spec (thresholdDb snrDb : R) (isPeakPower : bool) :
  - 200 <= thresholdDb <= 40 -> - 200 <= snrDb <= 40 ->
  exists v v_default,
    true_positive_rate_given_snr_and_threshold thresholdDb snrDb isPeakPower
    = Return (Fin v) /\
    within_abs_tol (1 / 10 ^ 9)
      v (Spec.evaluate_detection thresholdDb snrDb isPeakPower) /\
    true_positive_rate_default thresholdDb snrDb = Return (Fin v_default) /\
    within_abs_tol (1 / 10 ^ 9)
      v_default (Spec.evaluate_detection thresholdDb snrDb false).
Proof.
  intros Ht Hs. pose proof two_pow_m53_small as Hsmall.
  destruct (evaluator_close thresholdDb snrDb isPeakPower Ht Hs)
    as [v [Hv [_ Hc]]].
  destruct (evaluator_close thresholdDb snrDb false Ht Hs)
    as [w [Hw [_ Hd]]].
  exists v, w. unfold within_abs_tol, Spec.evaluate_detection.
  split; [exact Hv|]. split; [lra|]. split; [exact Hw | lra].
Qed.

Lemma evaluator_refines_spec_witness :
  - 200 <= 13 <= 40 /\ - 200 <= 15 <= 40 /\
  exists v v_default,
    true_positive_rate_given_snr_and_threshold 13 15 true = Return (Fin v) /\
    within_abs_tol (1 / 10 ^ 9) v (Spec.evaluate_detection 13 15 true) /\
    true_positive_rate_default 13 15 = Return (Fin v_default) /\
    within_abs_tol (1 / 10 ^ 9) v_default (Spec.evaluate_detection 13 15 false).
Proof.
  split; [lra|]. split; [lra|].
  apply (evaluator_refines_spec 13 15 true); lra.
Defined.

(** C4 as stated fails: at a threshold of 3090 dB, a finite real, the
    power [10 ** 309.0] overflows and the call raises instead of returning
    a survival probability. *)
Lemma evaluator_raises_on_large_threshold :
  true_positive_rate_given_snr_and_threshold 3090 0 false
  = Raise OverflowError /\
  ~ exists v,
      true_positive_rate_given_snr_and_threshold 3090 0 false = Return v.
Proof.
  split; [apply evaluator_overflows|].
  intros [v Hv]. rewrite evaluator_overflows in Hv. discriminate Hv.
Qed.

(** C6 (as the code has it): for a threshold and a signal-to-noise ratio
    between -200 and 40 dB the evaluator returns a value of [0,1]. *)
Theorem evaluator_in_unit_interval
    (thresholdDb snrDb : R) (isPeakPower : bool) :
  - 200 <= thresholdDb <= 40 -> - 200 <= snrDb <= 40 ->
  exists v,
    true_positive_rate_given_snr_and_threshold thresholdDb snrDb isPeakPower
    = Return (Fin v) /\
    0 <= v <= 1.
Proof.
  intros Ht Hs.
  destruct (evaluator_close thresholdDb snrDb isPeakPower Ht Hs)
    as [v [Hv [Hu _]]].
  now exists v.
Qed.

Lemma evaluator_in_unit_interval_witness :
  - 200 <= 13 <= 40 /\ - 200 <= 15 <= 40 /\
  exists v,
    true_positive_rate_given_snr_and_threshold 13 15 false
    = Return (Fin v) /\
    0 <= v <= 1.
Proof.
  split; [lra|]. split; [lra|].
  apply (evaluator_in_unit_interval 13 15 false); lra.
Defined.

(** C6 as stated fails: at the finite inputs (3090, 0) the call raises
    and returns no value of [0,1]. *)
Lemma evaluator_no_value_on_large_threshold :
  raises (true_positive_rate_given_snr_and_threshold 3090 0 false) /\
  ~ exists v,
      true_positive_rate_given_snr_and_threshold 3090 0 false
      = Return (Fin v) /\
      0 <= v <= 1.
Proof.
  split.
  - exists OverflowError. apply evaluator_overflows.
  - intros [v [Hv _]]. rewrite evaluator_overflows in Hv. discriminate Hv.
Qed.

Lemma log10R_2_bounds : 1 / 4 < np.log10R 2 < 1 / 3.
Proof.
  pose proof ln10_pos as H10. pose proof ln2_pos as H2.
  assert (Hu : ln (2 ^ 3) < ln (10 ^ 1)) by (apply ln_increasing; lra).
  assert (Hl : ln (10 ^ 1) < ln (2 ^ 4)) by (apply ln_increasing; lra).
  rewrite !ln_pow in Hu, Hl by lra. simpl INR in Hu, Hl.
  unfold np.log10R. split.
  - apply Rmult_lt_reg_r with (ln 10); [exact H10|].
    unfold Rdiv at 2. rewrite Rmult_assoc, Rinv_l, Rmult_1_r by lra. lra.
  - apply Rmult_lt_reg_r with (ln 10); [exact H10|].
    unfold Rdiv at 1. rewrite Rmult_assoc, Rinv_l, Rmult_1_r by lra. lra.
Qed.

Lemma ncx2_cdf_close (nc1 nc2 x : R) :
  0 <= nc1 -> 0 <= nc2 -> 0 < x ->
  Rabs (dist.ncx2_cdf 2 nc1 x - dist.ncx2_cdf 2 nc2 x)
  <= Rabs (nc1 - nc2) / 2.
Proof.
  intros H1 H2 Hx. destruct (Rle_lt_dec nc1 nc2) as [H|H].
  - pose proof (ncx2_cdf_lipschitz nc1 nc2 x H1 H Hx).
    pose proof (ncx2_cdf_antitone nc1 nc2 x H1 H Hx).
    rewrite Rabs_pos_eq by lra.
    rewrite (Rabs_left1 (nc1 - nc2)) by lra. lra.
  - pose proof (ncx2_cdf_lipschitz nc2 nc1 x H2 (Rlt_le _ _ H) Hx).
    pose proof (ncx2_cdf_antitone nc2 nc1 x H2 (Rlt_le _ _ H) Hx).
    rewrite Rabs_left1 by lra.
    rewrite (Rabs_pos_eq (nc1 - nc2)) by lra. lra.
Qed.

(** The non-centrality of the peak-power call at a signal-to-noise ratio
    within 1e-13 of [snr + 10*log10(2)]. *)
Lemma lambda_peak_close (snr snr_peak : R) :
  snr <= 40 ->
  Rabs (snr_peak - (snr + 10 * np.log10R 2)) <= 1 / 10 ^ 13 ->
  Rabs (Spec.lambda snr false - Spec.lambda snr_peak true) <= 16 / 10 ^ 10.
Proof.
  intros Hs Hd. set (d := snr_peak - (snr + 10 * np.log10R 2)) in *.
  assert (E : snr_peak / 10 = (snr + 10 * np.log10R 2) / 10 + d / 10).
  { unfold d. field. }
  unfold Spec.lambda, Spec.factor.
  rewrite E, Rpower_plus, power10_shift_log10_2.
  pose proof (power10_small d) as Hp.
  assert (Hd1 : Rabs d <= 1) by lra. specialize (Hp Hd1).
  pose proof (power10_pos (snr / 10)) as HA. unfold np.power in HA.
  assert (HA4 : Rpower 10 (snr / 10) <= 10 ^ 4).
  { pose proof (power10_monotone (snr / 10) 4) as Hm.
    change 4 with (IZR (Z.of_nat 4)) in Hm at 2.
    rewrite Rpower_10_nat in Hm. apply Hm. lra. }
  set (A := Rpower 10 (snr / 10)) in *.
  set (P := Rpower 10 (d / 10)) in *.
  replace (2 * A - 1 * (2 * A * P)) with (2 * A * - (P - 1)) by ring.
  rewrite Rabs_mult, Rabs_Ropp, (Rabs_pos_eq (2 * A)) by lra.
  apply Rle_trans with (2 * 10 ^ 4 * (4 / 5 * (1 / 10 ^ 13))); [|lra].
  apply Rmult_le_compat; try lra. apply Rabs_pos.
Qed.

(** C7 (as the code has it): for a threshold between -200 and 40 dB and a
    signal-to-noise ratio between -200 and 36 dB, the average-power
    convention at [snr_db] and the peak-power convention at a
    signal-to-noise ratio [snr_peak] within 1e-13 of
    [snr_db + 10*log10(2)] (the double that stands for the sum) return the
    same value within 1e-9. *)
Theorem evaluator_convention_offset (threshold_db snr_db snr_peak : R) :
  - 200 <= threshold_db <= 40 -> - 200 <= snr_db <= 36 ->
  Rabs (snr_peak - (snr_db + 10 * np.log10R 2)) <= 1 / 10 ^ 13 ->
  exists v_average v_peak,
    true_positive_rate_given_snr_and_threshold threshold_db snr_db false
    = Return (Fin v_average) /\
    true_positive_rate_given_snr_and_threshold threshold_db snr_peak true
    = Return (Fin v_peak) /\
    within_abs_tol (1 / 10 ^ 9) v_average v_peak.
Proof.
  intros Ht Hs Hd. pose proof log10R_2_bounds as H2.
  pose proof (lambda_peak_close snr_db snr_peak) as Hl.
  assert (Hs40 : snr_db <= 40) by lra. specialize (Hl Hs40 Hd).
  pose proof Hd as Hd'. apply Rabs_le_inv in Hd'.
  assert (Hp : - 200 <= snr_peak <= 40) by lra.
  assert (Ha : - 200 <= snr_db <= 40) by lra.
  destruct (evaluator_close threshold_db snr_db false Ht Ha)
    as [v [Hv [_ Hc]]].
  destruct (evaluator_close threshold_db snr_peak true Ht Hp)
    as [w [Hw [_ Hd2]]].
  exists v, w. split; [exact Hv|]. split; [exact Hw|].
  pose proof (ncx2_cdf_close (Spec.lambda snr_db false)
                (Spec.lambda snr_peak true) (Spec.x threshold_db)
                (Rlt_le _ _ (spec_lambda_pos _ _))
                (Rlt_le _ _ (spec_lambda_pos _ _))
                (spec_x_pos _)) as Hf.
  apply Rabs_le_inv in Hc. apply Rabs_le_inv in Hd2.
  apply Rabs_le_inv in Hf.
  pose proof two_pow_m53_tiny. unfold within_abs_tol. apply Rabs_le. lra.
Qed.

Lemma evaluator_convention_offset_witness :
  - 200 <= 13 <= 40 /\ - 200 <= 15 <= 36 /\
  Rabs (15 + 10 * np.log10R 2 - (15 + 10 * np.log10R 2)) <= 1 / 10 ^ 13 /\
  exists v_average v_peak,
    true_positive_rate_given_snr_and_threshold 13 15 false
    = Return (Fin v_average) /\
    true_positive_rate_given_snr_and_threshold
      13 (15 + 10 * np.log10R 2) true
    = Return (Fin v_peak) /\
    within_abs_tol (1 / 10 ^ 9) v_average v_peak.
Proof.
  assert (H : Rabs (15 + 10 * np.log10R 2 - (15 + 10 * np.log10R 2))
              <= 1 / 10 ^ 13).
  { unfold Rminus. rewrite Rplus_opp_r, Rabs_R0. lra. }
  split; [lra|]. split; [lra|]. split; [exact H|].
  apply (evaluator_convention_offset 13 15 (15 + 10 * np.log10R 2));
    [lra | lra | exact H].
Defined.

(** C7 as stated fails: at 3080 dB the average-power call computes
    [10 ** 308.0] and returns, while the peak-power call at
    [3080 + 10*log10(2)] dB computes twice that power, which overflows,
    and raises. *)
Lemma evaluator_conventions_differ :
  (exists v,
     true_positive_rate_given_snr_and_threshold 0 3080 false = Return v) /\
  true_positive_rate_given_snr_and_threshold
    0 (3080 + 10 * np.log10R 2) true
  = Raise OverflowError.
Proof.
  assert (E0 : pyfloat.pow 10 (0 / 10) = Return (Rpower 10 (0 / 10))).
  { apply pow_10_returns. lra. }
  split.
  - unfold true_positive_rate_given_snr_and_threshold.
    rewrite E0. cbn [pyfloat.bind]. unfold pyfloat.pow.
    replace (3080 / 10) with (IZR (Z.of_nat 308)) by (simpl; lra).
    rewrite Rpower_10_nat.
    destruct (Rle_dec fp.overflow_threshold (10 ^ 308)) as [H|_].
    + exfalso. unfold fp.overflow_threshold in H. lra.
    + destruct (Rle_dec (10 ^ 308) fp.underflow_threshold) as [H|_].
      * exfalso. pose proof underflow_threshold_small. lra.
      * cbn [pyfloat.bind]. eexists. reflexivity.
  - unfold true_positive_rate_given_snr_and_threshold.
    rewrite E0. cbn [pyfloat.bind]. unfold pyfloat.pow at 1.
    rewrite power10_shift_log10_2.
    replace (3080 / 10) with (IZR (Z.of_nat 308)) by (simpl; lra).
    rewrite Rpower_10_nat.
    destruct (Rle_dec fp.overflow_threshold (2 * 10 ^ 308)) as [_|H];
      [reflexivity|].
    exfalso. apply H. unfold fp.overflow_threshold. lra.
Qed.

(** C9 (as the code has it): for a threshold between -200 and 40 dB and
    two signal-to-noise ratios [-200 <= snr1 <= snr2 <= 40] dB the value at
    [snr1] is at most the value at [snr2], up to rounding (1e-9). *)
Theorem evaluator_monotone_in_snr
    (threshold_db snr1 snr2 : R) (isPeakPower : bool) :
  - 200 <= threshold_db <= 40 ->
  - 200 <= snr1 -> snr1 <= snr2 -> snr2 <= 40 ->
  exists v1 v2,
    true_positive_rate_given_snr_and_threshold threshold_db snr1 isPeakPower
    = Return (Fin v1) /\
    true_positive_rate_given_snr_and_threshold threshold_db snr2 isPeakPower
    = Return (Fin v2) /\
    v1 <= v2 + 1 / 10 ^ 9.
Proof.
  intros Ht Hs1 Hsnr Hs2.
  assert (B1 : - 200 <= snr1 <= 40) by lra.
  assert (B2 : - 200 <= snr2 <= 40) by lra.
  destruct (evaluator_close threshold_db snr1 isPeakPower Ht B1)
    as [v1 [Hv1 [_ E1]]].
  destruct (evaluator_close threshold_db snr2 isPeakPower Ht B2)
    as [v2 [Hv2 [_ E2]]].
  exists v1, v2. split; [exact Hv1|]. split; [exact Hv2|].
  assert (Hl : Spec.lambda snr1 isPeakPower <= Spec.lambda snr2 isPeakPower).
  { unfold Spec.lambda. apply Rmult_le_compat_l.
    - apply Rlt_le, spec_factor_pos.
    - apply power10_monotone. lra. }
  pose proof (ncx2_cdf_antitone _ _ (Spec.x threshold_db)
                (Rlt_le _ _ (spec_lambda_pos snr1 isPeakPower)) Hl
                (spec_x_pos threshold_db)) as Ha.
  apply Rabs_le_inv in E1. apply Rabs_le_inv in E2.
  pose proof two_pow_m53_small. lra.
Qed.

Lemma evaluator_monotone_in_snr_witness :
  - 200 <= 13 <= 40 /\ - 200 <= 10 /\ 10 <= 20 /\ 20 <= 40 /\
  exists v1 v2,
    true_positive_rate_given_snr_and_threshold 13 10 false = Return (Fin v1) /\
    true_positive_rate_given_snr_and_threshold 13 20 false = Return (Fin v2) /\
    v1 <= v2 + 1 / 10 ^ 9.
Proof.
  split; [lra|]. split; [lra|]. split; [lra|]. split; [lra|].
  apply (evaluator_monotone_in_snr 13 10 20 false); lra.
Defined.

(** C9 as stated fails: with [snr1 = 0 <= snr2 = 3090] the second call
    raises, so the two calls do not return ordered values. *)
Lemma evaluator_not_monotone_on_all_reals :
  0 <= 3090 /\
  ~ exists v1 v2,
      true_positive_rate_given_snr_and_threshold 0 0 false
      = Return (Fin v1) /\
      true_positive_rate_given_snr_and_threshold 0 3090 false
      = Return (Fin v2) /\
      v1 <= v2.
Proof.
  split; [lra|]. intros [v1 [v2 [_ [H2 _]]]].
  rewrite evaluator_overflows_snr in H2. discriminate H2.
Qed.

(** C10 (as the code has it): with the signal-to-noise ratio equal to the
    threshold, between -200 and 40 dB, under the average-power convention,
    the evaluator returns a value of at least one half and at most 1. *)
Theorem evaluator_at_threshold (t : R) :
  - 200 <= t <= 40 ->
  exists v,
    true_positive_rate_given_snr_and_threshold t t false = Return (Fin v) /\
    / 2 <= v <= 1.
Proof.
  intros Ht. eexists. split; [now apply evaluator_value|].
  rewrite spec_diag.
  pose proof (ncx2_cdf_diag (Spec.x t) (spec_x_pos t)) as H.
  split.
  - apply RN_at_least_half. lra.
  - apply RN_unit_interval. lra.
Qed.

Lemma evaluator_at_threshold_witness :
  - 200 <= 13 <= 40 /\
  exists v,
    true_positive_rate_given_snr_and_threshold 13 13 false = Return (Fin v) /\
    / 2 <= v <= 1.
Proof.
  split; [lra | apply (evaluator_at_threshold 13); lra].
Defined.

(** C10 as stated fails: at 0 dB for both the threshold and the
    signal-to-noise ratio the value returned is not below one half. *)
Lemma evaluator_at_threshold_not_below_half :
  ~ exists v,
      true_positive_rate_given_snr_and_threshold 0 0 false = Return (Fin v) /\
      0 < v < 1 / 2.
Proof.
  intros [v [Hv Hlt]].
  rewrite evaluator_value, spec_diag in Hv by lra.
  injection Hv as Hv.
  pose proof (ncx2_cdf_diag (Spec.x 0) (spec_x_pos 0)) as H.
  pose proof (RN_at_least_half (1 - dist.ncx2_cdf 2 (Spec.x 0) (Spec.x 0))).
  lra.
Qed.

(** ** The range of the solver *)

Lemma two_pow_53_bounds : 9 * 10 ^ 15 < 2 ^ 53 < 10 ^ 16.
Proof.
  split; lra.
Qed.

(** The rate [q = 1 - y] the solver inverts, for a rate [p] above
    [2^-54] and at most [1 - 2^-53]: within [2^-53] of [p], and not
    closer to 1 than [10^-16]. *)
Lemma inverted_rate (p : R) :
  / 2 ^ 54 < p <= 1 - / 2 ^ 53 ->
  let q := 1 - pyfloat.sub 1 p in
  / 2 ^ 53 <= q <= 1 - 1 / 10 ^ 16 /\ Rabs (q - p) <= / 2 ^ 53 /\
  snr_threshold_given_false_positive_rate p
  = Return (Fin (10 * np.log10R (- ln q))).
Proof.
  intros [Hl Hu] q. pose proof two_pow_53_bounds as [B1 B2].
  assert (H53 : 0 < / 2 ^ 53) by (apply Rinv_0_lt_compat; lra).
  assert (H53u : / 2 ^ 53 < 1 / (9 * 10 ^ 15)).
  { unfold Rdiv. rewrite Rmult_1_l. apply Rinv_lt_contravar; [|lra].
    apply Rmult_lt_0_compat; lra. }
  assert (H53l : 1 / 10 ^ 16 < / 2 ^ 53).
  { unfold Rdiv. rewrite Rmult_1_l. apply Rinv_lt_contravar; [|lra].
    apply Rmult_lt_0_compat; lra. }
  assert (Hy : 0 < pyfloat.sub 1 p <= 1 - / 2 ^ 53).
  { apply sub_1_below_1. lra. }
  pose proof (sub_1_error p) as He.
  assert (Hp01 : 0 <= p <= 1) by lra. specialize (He Hp01).
  assert (Hrel : Rabs (pyfloat.sub 1 p - (1 - p)) <= Rabs (1 - p) / 2 ^ 53).
  { unfold pyfloat.sub. apply RN_error_rel. }
  rewrite (Rabs_pos_eq (1 - p)) in Hrel by lra.
  pose proof He as He'. apply Rabs_le_inv in He'.
  apply Rabs_le_inv in Hrel.
  assert (Hy53 : 1 / 10 ^ 16 <= pyfloat.sub 1 p).
  { assert (/ 2 ^ 53 * (1 - / 2 ^ 53) <= pyfloat.sub 1 p).
    { unfold Rdiv in Hrel. nra. }
    assert (1 / 10 ^ 16 <= / 2 ^ 53 * (1 - / 2 ^ 53)); [|lra].
    assert (1 - 1 / (9 * 10 ^ 15) <= 1 - / 2 ^ 53) by lra.
    assert (0 < 1 / 10 ^ 16) by lra.
    apply Rle_trans with (/ 2 ^ 53 * (1 - 1 / (9 * 10 ^ 15))); [|nra].
    apply Rle_trans with (/ 2 ^ 53 * (95 / 100)); [|nra].
    assert (1 / 10 ^ 16 * (100 / 95) <= / 2 ^ 53); [|lra].
    apply Rmult_le_reg_r with (2 ^ 53); [lra|].
    rewrite Rinv_l by lra. lra. }
  split; [unfold q; lra|].
  split.
  - unfold q. replace (1 - pyfloat.sub 1 p - p)
      with (- (pyfloat.sub 1 p - (1 - p))) by ring.
    now rewrite Rabs_Ropp.
  - apply solver_finite. lra.
Qed.

(** [-ln q] for such a [q]. *)
Lemma neg_ln_range (q : R) :
  / 2 ^ 53 <= q <= 1 - 1 / 10 ^ 16 ->
  1 / 10 ^ 16 <= - ln q < 53.
Proof.
  intros [Hl Hu].
  assert (H53 : 0 < / 2 ^ 53) by (apply Rinv_0_lt_compat; lra).
  split.
  - pose proof (ln_le_minus_1 q). lra.
  - assert (H : ln (/ 2 ^ 53) <= ln q).
    { destruct (Rle_lt_or_eq_dec _ _ Hl) as [Hlt|Heq].
      - apply Rlt_le, ln_increasing; lra.
      - rewrite Heq. lra. }
    rewrite ln_Rinv, ln_pow in H by lra.
    pose proof ln2_bounds as Hb.
    replace (INR 53) with 53 in H by (simpl; lra). lra.
Qed.

Lemma log10R_le (a b : R) : 0 < a -> a <= b -> np.log10R a <= np.log10R b.
Proof.
  intros Ha Hab. destruct (Rle_lt_or_eq_dec _ _ Hab) as [H|H].
  - apply Rlt_le, log10R_increasing; lra.
  - subst. lra.
Qed.

Lemma log10R_pow10 (n : nat) : np.log10R (10 ^ n) = INR n.
Proof.
  unfold np.log10R. rewrite ln_pow by lra. field.
  apply Rgt_not_eq, ln10_pos.
Qed.

(** X3: whenever the threshold is finite it lies between -160 and 20 dB:
    for a rate above [2^-54] and at most [1 - 2^-53] (the largest double
    below 1) the solver returns a finite threshold of that range.  The
    rounding of [1 - p] bounds what the solver can return. *)
Theorem solver_range (p : R) :
  / 2 ^ 54 < p <= 1 - / 2 ^ 53 ->
  exists t,
    snr_threshold_given_false_positive_rate p = Return (Fin t) /\
    - 160 <= t < 20.
Proof.
  intros Hp. destruct (inverted_rate p Hp) as [Hq [_ Hs]].
  set (q := 1 - pyfloat.sub 1 p) in *.
  exists (10 * np.log10R (- ln q)). split; [exact Hs|].
  destruct (neg_ln_range q Hq) as [Hl Hu].
  assert (L1 : np.log10R (1 / 10 ^ 16) <= np.log10R (- ln q)).
  { apply log10R_le; lra. }
  assert (L2 : np.log10R (- ln q) < np.log10R (10 ^ 2)).
  { apply log10R_increasing; lra. }
  unfold Rdiv in L1. rewrite Rmult_1_l, log10R_Rinv, log10R_pow10 in L1
    by lra.
  rewrite log10R_pow10 in L2.
  replace (INR 16) with 16 in L1 by (simpl; lra).
  replace (INR 2) with 2 in L2 by (simpl; lra). lra.
Qed.

Lemma solver_range_witness :
  / 2 ^ 54 < / 4 <= 1 - / 2 ^ 53 /\
  exists t,
    snr_threshold_given_false_positive_rate (/ 4) = Return (Fin t) /\
    - 160 <= t < 20.
Proof.
  assert (H : / 2 ^ 54 < / 4 <= 1 - / 2 ^ 53).
  { assert (/ 2 ^ 54 < / 4).
    { apply Rinv_lt_contravar; lra. }
    assert (/ 2 ^ 53 <= / 2).
    { apply Rinv_le_contravar; lra. }
    lra. }
  split; [exact H | exact (solver_range (/ 4) H)].
Defined.

Lemma exp_eighths (a : R) : exp (8 * a) = exp a ^ 8.
Proof.
  replace (8 * a) with (a + (a + (a + (a + (a + (a + (a + a))))))) by ring.
  rewrite !exp_plus. ring.
Qed.

Lemma exp_m1_bounds : (7 / 8) ^ 8 <= exp (- 1) <= (8 / 9) ^ 8.
Proof.
  replace (- 1) with (8 * (- (1 / 8))) by field. rewrite exp_eighths.
  pose proof (exp_ineq1_le (- (1 / 8))) as Hl.
  pose proof (exp_ineq1_le (1 / 8)) as Hu.
  pose proof (exp_pos (- (1 / 8))) as Hp.
  split.
  - apply pow_incr. lra.
  - apply pow_incr. split; [lra|].
    rewrite exp_Ropp. replace (8 / 9) with (/ (9 / 8)) by field.
    apply Rinv_le_contravar; lra.
Qed.

(** X2: the sign of the threshold.  For a rate [p] above [2^-54] and at
    most [1 - 2^-53] the threshold is finite; it is above 0 dB when
    [p <= 1/3] and below 0 dB when [p >= 2/5] (the sign changes at
    [exp(-1)], between the two). *)
Theorem solver_sign (p : R) :
  / 2 ^ 54 < p <= 1 - / 2 ^ 53 ->
  exists t,
    snr_threshold_given_false_positive_rate p = Return (Fin t) /\
    (p <= 1 / 3 -> 0 < t) /\
    (2 / 5 <= p -> t < 0).
Proof.
  intros Hp. destruct (inverted_rate p Hp) as [Hq [Hqp Hs]].
  set (q := 1 - pyfloat.sub 1 p) in *.
  exists (10 * np.log10R (- ln q)). split; [exact Hs|].
  assert (H53 : 0 < / 2 ^ 53) by (apply Rinv_0_lt_compat; lra).
  assert (Hs53 : / 2 ^ 53 <= 1 / 1000).
  { apply Rmult_le_reg_r with (2 ^ 53); [lra|]. rewrite Rinv_l by lra. lra. }
  destruct (neg_ln_range q Hq) as [Hl _].
  destruct (log10R_sign (- ln q)) as [Hneg Hpos]; [lra|].
  pose proof exp_m1_bounds as [Be1 Be2].
  apply Rabs_le_inv in Hqp.
  split; intros H.
  - assert (Hlt : ln q < - 1).
    { rewrite <- (ln_exp (- 1)). apply ln_increasing; lra. }
    assert (0 < np.log10R (- ln q)) by (apply Hpos; lra). lra.
  - assert (Hgt : - 1 < ln q).
    { rewrite <- (ln_exp (- 1)). apply ln_increasing; [apply exp_pos | lra]. }
    assert (np.log10R (- ln q) < 0) by (apply Hneg; lra). lra.
Qed.

Lemma solver_sign_witness :
  / 2 ^ 54 < / 4 <= 1 - / 2 ^ 53 /\
  exists t,
    snr_threshold_given_false_positive_rate (/ 4) = Return (Fin t) /\
    (/ 4 <= 1 / 3 -> 0 < t) /\
    (2 / 5 <= / 4 -> t < 0).
Proof.
  assert (H : / 2 ^ 54 < / 4 <= 1 - / 2 ^ 53).
  { assert (/ 2 ^ 54 < / 4).
    { apply Rinv_lt_contravar; lra. }
    assert (/ 2 ^ 53 <= / 2).
    { apply Rinv_le_contravar; lra. }
    lra. }
  split; [exact H | exact (solver_sign (/ 4) H)].
Defined.

(** ** More on the evaluator *)

(** X4: between -200 and 40 dB, with either convention, the value of the
    evaluator is at most 1 and, up to rounding (1e-9), at least
    [exp(-10^(threshold/10))], the probability that noise alone exceeds
    the threshold. *)
Theorem evaluator_above_noise (threshold snr : R) (isPeak : bool) :
  - 200 <= threshold <= 40 -> - 200 <= snr <= 40 ->
  exists v,
    true_positive_rate_given_snr_and_threshold threshold snr isPeak
    = Return (Fin v) /\
    exp (- np.power 10 (threshold / 10)) - 1 / 10 ^ 9 <= v <= 1.
Proof.
  intros Ht Hs.
  destruct (evaluator_close threshold snr isPeak Ht Hs) as [v [Hv [Hu Hc]]].
  exists v. split; [exact Hv|]. split; [|lra].
  pose proof (ncx2_cdf_strict _ _ (spec_lambda_pos snr isPeak)
                (spec_x_pos threshold)) as [_ H].
  rewrite spec_x_half in H. apply Rabs_le_inv in Hc.
  pose proof two_pow_m53_small. lra.
Qed.

Lemma evaluator_above_noise_witness :
  - 200 <= 13 <= 40 /\ - 200 <= 15 <= 40 /\
  exists v,
    true_positive_rate_given_snr_and_threshold 13 15 false
    = Return (Fin v) /\
    exp (- np.power 10 (13 / 10)) - 1 / 10 ^ 9 <= v <= 1.
Proof.
  split; [lra|]. split; [lra|].
  apply (evaluator_above_noise 13 15 false); lra.
Defined.

(** X5: at the threshold the solver returns for a rate [p] above [2^-54]
    and at most [1 - 2^-53], the value of the evaluator is, up to
    rounding (1e-9), at least [p], for every signal-to-noise ratio
    between -200 and 40 dB and either convention: detection is at least as
    likely as a false alarm. *)
Theorem detection_above_false_positive_rate
    (p snr : R) (isPeak : bool) :
  / 2 ^ 54 < p <= 1 - / 2 ^ 53 -> - 200 <= snr <= 40 ->
  exists t v,
    snr_threshold_given_false_positive_rate p = Return (Fin t) /\
    true_positive_rate_given_snr_and_threshold t snr isPeak
    = Return (Fin v) /\
    p - 1 / 10 ^ 9 <= v <= 1.
Proof.
  intros Hp Hs. destruct (inverted_rate p Hp) as [Hq [Hqp Hsol]].
  set (q := 1 - pyfloat.sub 1 p) in *.
  destruct (neg_ln_range q Hq) as [Hl Hu].
  set (t := 10 * np.log10R (- ln q)) in *.
  assert (H53 : 0 < / 2 ^ 53) by (apply Rinv_0_lt_compat; lra).
  assert (Ht : - 200 <= t <= 40).
  { assert (L1 : np.log10R (1 / 10 ^ 16) <= np.log10R (- ln q)).
    { apply log10R_le; lra. }
    assert (L2 : np.log10R (- ln q) < np.log10R (10 ^ 2)).
    { apply log10R_increasing; lra. }
    unfold Rdiv in L1. rewrite Rmult_1_l, log10R_Rinv, log10R_pow10 in L1
      by lra.
    rewrite log10R_pow10 in L2.
    replace (INR 16) with 16 in L1 by (simpl; lra).
    replace (INR 2) with 2 in L2 by (simpl; lra). unfold t. lra. }
  destruct (evaluator_close t snr isPeak Ht Hs) as [v [Hv [Hu1 Hc]]].
  exists t, v. split; [exact Hsol|]. split; [exact Hv|]. split; [|lra].
  pose proof (ncx2_cdf_strict _ _ (spec_lambda_pos snr isPeak)
                (spec_x_pos t)) as [_ H].
  rewrite spec_x_half in H.
  assert (E : np.power 10 (t / 10) = - ln q).
  { unfold t. replace (10 * np.log10R (- ln q) / 10)
      with (np.log10R (- ln q)) by field.
    apply power10_log10R. lra. }
  rewrite E in H. replace (- - ln q) with (ln q) in H by ring.
  rewrite exp_ln in H by lra.
  apply Rabs_le_inv in Hc. apply Rabs_le_inv in Hqp.
  pose proof two_pow_m53_small. lra.
Qed.

Lemma detection_above_false_positive_rate_witness :
  / 2 ^ 54 < / 4 <= 1 - / 2 ^ 53 /\ - 200 <= 15 <= 40 /\
  exists t v,
    snr_threshold_given_false_positive_rate (/ 4) = Return (Fin t) /\
    true_positive_rate_given_snr_and_threshold t 15 false
    = Return (Fin v) /\
    / 4 - 1 / 10 ^ 9 <= v <= 1.
Proof.
  assert (H : / 2 ^ 54 < / 4 <= 1 - / 2 ^ 53).
  { assert (/ 2 ^ 54 < / 4).
    { apply Rinv_lt_contravar; lra. }
    assert (/ 2 ^ 53 <= / 2).
    { apply Rinv_le_contravar; lra. }
    lra. }
  split; [exact H|]. split; [lra|].
  apply (detection_above_false_positive_rate (/ 4) 15 false); [exact H | lra].
Defined.

(** X6: for a fixed signal-to-noise ratio and convention the value of the
    evaluator does not grow with the threshold, up to rounding (1e-9),
    between -200 and 40 dB. *)
Theorem evaluator_antitone_in_threshold
    (threshold1 threshold2 snr : R) (isPeak : bool) :
  - 200 <= threshold1 -> threshold1 <= threshold2 -> threshold2 <= 40 ->
  - 200 <= snr <= 40 ->
  exists v1 v2,
    true_positive_rate_given_snr_and_threshold threshold1 snr isPeak
    = Return (Fin v1) /\
    true_positive_rate_given_snr_and_threshold threshold2 snr isPeak
    = Return (Fin v2) /\
    v2 <= v1 + 1 / 10 ^ 9.
Proof.
  intros H1 H12 H2 Hs.
  assert (B1 : - 200 <= threshold1 <= 40) by lra.
  assert (B2 : - 200 <= threshold2 <= 40) by lra.
  destruct (evaluator_close threshold1 snr isPeak B1 Hs) as [v1 [Hv1 [_ E1]]].
  destruct (evaluator_close threshold2 snr isPeak B2 Hs) as [v2 [Hv2 [_ E2]]].
  exists v1, v2. split; [exact Hv1|]. split; [exact Hv2|].
  assert (Hx : Spec.x threshold1 <= Spec.x threshold2).
  { unfold Spec.x. apply Rmult_le_compat_l; [lra|].
    apply power10_monotone. lra. }
  pose proof (ncx2_cdf_monotone (Spec.lambda snr isPeak) _ _
                (Rlt_le _ _ (spec_lambda_pos snr isPeak))
                (spec_x_pos threshold1) Hx) as Hm.
  apply Rabs_le_inv in E1. apply Rabs_le_inv in E2.
  pose proof two_pow_m53_small. lra.
Qed.

Lemma evaluator_antitone_in_threshold_witness :
  - 200 <= 10 /\ 10 <= 13 /\ 13 <= 40 /\ - 200 <= 15 <= 40 /\
  exists v1 v2,
    true_positive_rate_given_snr_and_threshold 10 15 false
    = Return (Fin v1) /\
    true_positive_rate_given_snr_and_threshold 13 15 false
    = Return (Fin v2) /\
    v2 <= v1 + 1 / 10 ^ 9.
Proof.
  split; [lra|]. split; [lra|]. split; [lra|]. split; [lra|].
  apply (evaluator_antitone_in_threshold 10 13 15 false); lra.
Defined.

(** X7: at the same threshold and the same signal-to-noise ratio, between
    -200 and 40 dB, the average-power convention (the default) gives, up
    to rounding (1e-9), at least the value of the peak-power convention. *)
Theorem evaluator_average_above_peak (threshold snr : R) :
  - 200 <= threshold <= 40 -> - 200 <= snr <= 40 ->
  exists v_average v_peak,
    true_positive_rate_given_snr_and_threshold threshold snr false
    = Return (Fin v_average) /\
    true_positive_rate_given_snr_and_threshold threshold snr true
    = Return (Fin v_peak) /\
    v_peak <= v_average + 1 / 10 ^ 9.
Proof.
  intros Ht Hs.
  destruct (evaluator_close threshold snr false Ht Hs) as [va [Hva [_ Ea]]].
  destruct (evaluator_close threshold snr true Ht Hs) as [vp [Hvp [_ Ep]]].
  exists va, vp. split; [exact Hva|]. split; [exact Hvp|].
  assert (Hl : Spec.lambda snr true <= Spec.lambda snr false).
  { unfold Spec.lambda, Spec.factor.
    pose proof (power10_pos (snr / 10)) as H. unfold np.power in H. lra. }
  pose proof (ncx2_cdf_antitone _ _ (Spec.x threshold)
                (Rlt_le _ _ (spec_lambda_pos snr true)) Hl
                (spec_x_pos threshold)) as Ha.
  apply Rabs_le_inv in Ea. apply Rabs_le_inv in Ep.
  pose proof two_pow_m53_small. lra.
Qed.

Lemma evaluator_average_above_peak_witness :
  - 200 <= 13 <= 40 /\ - 200 <= 15 <= 40 /\
  exists v_average v_peak,
    true_positive_rate_given_snr_and_threshold 13 15 false
    = Return (Fin v_average) /\
    true_positive_rate_given_snr_and_threshold 13 15 true
    = Return (Fin v_peak) /\
    v_peak <= v_average + 1 / 10 ^ 9.
Proof.
  split; [lra|]. split; [lra|].
  apply (evaluator_average_above_peak 13 15); lra.
Defined.

(** ** The plotting function: the grid of signal-to-noise ratios *)

Lemma pow2_neg_nat (n : nat) : fp.pow2 (- Z.of_nat n) = / 2 ^ n.
Proof. now rewrite pow2_opp, pow2_nat. Qed.

(** The doubles of a binade below 1. *)
Lemma RN_grid_small (x : R) (k : nat) :
  / 2 ^ (k + 1) <= x < / 2 ^ k ->
  fp.RN x = IZR (fp.rint (x * 2 ^ (k + 53))) / 2 ^ (k + 53).
Proof.
  intros Hx. rewrite (RN_grid x (- Z.of_nat k)).
  - replace (- Z.of_nat k - 53)%Z with (- Z.of_nat (k + 53))%Z by lia.
    rewrite pow2_neg_nat. unfold Rdiv. now rewrite Rinv_inv.
  - replace (- Z.of_nat k - 1)%Z with (- Z.of_nat (k + 1))%Z by lia.
    now rewrite !pow2_neg_nat.
Qed.

(** The doubles of a binade above 1. *)
Lemma RN_grid_large (x : R) (k : nat) :
  (k <= 52)%nat -> 2 ^ k <= x < 2 ^ (k + 1) ->
  fp.RN x = IZR (fp.rint (x * 2 ^ (52 - k))) / 2 ^ (52 - k).
Proof.
  intros Hk Hx. rewrite (RN_grid x (Z.of_nat (k + 1))).
  - replace (Z.of_nat (k + 1) - 53)%Z with (- Z.of_nat (52 - k))%Z by lia.
    rewrite pow2_neg_nat. unfold Rdiv. now rewrite Rinv_inv.
  - replace (Z.of_nat (k + 1) - 1)%Z with (Z.of_nat k) by lia.
    now rewrite !pow2_nat.
Qed.

(** The double [0.1]. *)
Lemma RN_tenth : fp.RN (1 / 10) = 7205759403792794 / 2 ^ 56.
Proof.
  rewrite (RN_grid_small _ 3) by (simpl; lra).
  rewrite (rint_near _ 7205759403792794%Z); [reflexivity|].
  apply Rabs_def1; simpl; lra.
Qed.

Lemma RN_10 : fp.RN 10 = 10.
Proof.
  rewrite (RN_grid_large _ 3) by (try lia; simpl; lra).
  rewrite (rint_near _ (10 * 2 ^ 49)%Z).
  - eval_zpow. simpl. lra.
  - eval_zpow. apply Rabs_def1; simpl; lra.
Qed.

Lemma ceil_IZR (z : Z) : nparray.ceil (IZR z) = z.
Proof.
  unfold nparray.ceil.
  assert (E : (1 - z)%Z = up (- IZR z)).
  { apply tech_up; rewrite minus_IZR; lra. }
  rewrite <- E. lia.
Qed.

(** The grid has 100 points. *)
Lemma arange_length_10_20 :
  nparray.arange_length 10 20 (fp.RN (1 / 10)) = 100%nat.
Proof.
  unfold nparray.arange_length. rewrite RN_tenth.
  replace (20 - 10) with 10 by lra. rewrite RN_10.
  assert (E : fp.RN (10 / (7205759403792794 / 2 ^ 56)) = IZR 100).
  { rewrite (RN_grid_large _ 6) by (try lia; simpl; lra).
    rewrite (rint_near _ (100 * 2 ^ 46)%Z).
    - eval_zpow. simpl. lra.
    - eval_zpow. apply Rabs_def1; simpl; lra. }
  rewrite E, ceil_IZR. reflexivity.
Qed.

(** The step numpy takes from the first two entries. *)
Lemma arange_delta_10 :
  nparray.arange_delta 10 (fp.RN (1 / 10)) = 56294995342131 / 2 ^ 49.
Proof.
  unfold nparray.arange_delta. rewrite RN_tenth.
  assert (E : fp.RN (10 + 7205759403792794 / 2 ^ 56)
              = 5685794529555251 / 2 ^ 49).
  { rewrite (RN_grid_large _ 3) by (try lia; simpl; lra).
    rewrite (rint_near _ 5685794529555251%Z); [reflexivity|].
    apply Rabs_def1; simpl; lra. }
  rewrite E.
  replace (5685794529555251 / 2 ^ 49 - 10) with (56294995342131 / 2 ^ 49)
    by (simpl; lra).
  rewrite (RN_grid_small _ 3) by (simpl; lra).
  rewrite (rint_near _ 7205759403792768%Z).
  - simpl. lra.
  - apply Rabs_def1; simpl; lra.
Qed.

Lemma arange_10_20 :
  nparray.arange 10 20 (fp.RN (1 / 10)) = map grid_point (seq 0 100).
Proof.
  unfold nparray.arange. now rewrite arange_length_10_20.
Qed.

Lemma RN_error_bounded (x b : R) :
  Rabs x <= b -> Rabs (fp.RN x - x) <= b / 2 ^ 53.
Proof.
  intros Hb. apply Rle_trans with (1 := RN_error_rel x).
  unfold Rdiv. apply Rmult_le_compat_r; [|exact Hb].
  apply Rlt_le, Rinv_0_lt_compat. lra.
Qed.

(** Every entry is at least 10 and within 1e-13 of [10 + i/10]. *)
Lemma grid_point_value (i : nat) :
  (i < 100)%nat ->
  10 <= grid_point i /\ Rabs (grid_point i - (10 + INR i / 10)) <= 1 / 10 ^ 13.
Proof.
  intros Hi. unfold grid_point. rewrite arange_delta_10.
  pose proof (pos_INR i) as H0.
  assert (H99 : INR i <= 99).
  { replace 99 with (INR 99) by (simpl; lra). apply le_INR. lia. }
  set (z := INR i * (56294995342131 / 2 ^ 49)).
  assert (Hz : 0 <= z <= 99 / 10).
  { unfold z. split; [apply Rmult_le_pos; lra|]. nra. }
  assert (Hzd : Rabs (z - INR i / 10) <= 4 / 10 ^ 14).
  { unfold z. apply Rabs_le. split; nra. }
  pose proof (RN_error_bounded z 10) as Ez.
  rewrite (Rabs_pos_eq z) in Ez by lra. specialize (Ez ltac:(lra)).
  apply Rabs_le_inv in Ez. apply Rabs_le_inv in Hzd.
  set (rz := fp.RN z) in *.
  assert (Hrz : 0 <= 10 + rz < 20) by lra.
  pose proof (RN_error_bounded (10 + rz) 20) as Es.
  rewrite (Rabs_pos_eq (10 + rz)) in Es by lra. specialize (Es ltac:(lra)).
  apply Rabs_le_inv in Es. split.
  - assert (Hrz0 : 0 <= rz).
    { unfold rz. destruct (Req_dec z 0) as [E|E].
      - rewrite E, RN_0. lra.
      - assert (Hm := mag_spec z E). rewrite Rabs_pos_eq in Hm by lra.
        pose proof (RN_binade z (fp.mag z) Hm) as [Hb _].
        pose proof (pow2_pos (fp.mag z - 1)). lra. }
    destruct (Rlt_le_dec (10 + rz) 16) as [H16|H16].
    + rewrite (RN_grid_large _ 3) by (try lia; simpl; lra).
      change (52 - 3)%nat with 49%nat.
      assert (Hr : (5629499534213120 <= fp.rint ((10 + rz) * 2 ^ 49))%Z).
      { apply rint_ge_int. nra. }
      apply IZR_le in Hr. lra.
    + pose proof (RN_binade (10 + rz) (Z.of_nat 5)) as Hb.
      replace (Z.of_nat 5 - 1)%Z with (Z.of_nat 4) in Hb by lia.
      rewrite !pow2_nat in Hb. simpl in Hb. lra.
  - apply Rabs_le. lra.
Qed.

(** ** The plotting function: what it returns and when it raises *)

Lemma getitem_first (f : nat -> R) (n : nat) :
  py.getitem (map f (seq 0 (S n))) 0 = Returned (f 0%nat).
Proof.
  reflexivity.
Qed.

Lemma getitem_last (f : nat -> R) (n : nat) :
  py.getitem (map f (seq 0 (S n))) (-1) = Returned (f n).
Proof.
  unfold py.getitem. rewrite length_map, length_seq.
  change (Z.ltb (-1) 0) with true. cbv iota.
  replace (Z.of_nat (S n) + -1)%Z with (Z.of_nat n) by lia.
  destruct (Z.ltb_spec (Z.of_nat n) 0) as [H|_]; [lia|].
  rewrite Nat2Z.id, nth_error_map.
  rewrite (nth_error_nth' _ 0%nat) by (rewrite length_seq; lia).
  rewrite seq_nth by lia. reflexivity.
Qed.



Lemma truediv_value (a b : R) :
  b <> 0 -> fp.underflow_threshold < Rabs (a / b) ->
  py.truediv a b = Returned (a / b).
Proof.
  intros Hb Hu. unfold py.truediv.
  destruct (Req_dec_T b 0) as [E|_]; [contradiction|].
  destruct (Rle_dec (Rabs (a / b)) fp.underflow_threshold) as [H|_];
    [lra | reflexivity].
Qed.

(** The function after its three divisions. *)
Lemma plot_after_divisions (whitenoisedensity fpy ms sd num p : R) :
  py.truediv ms 1000 = Returned sd ->
  py.truediv (365 * 24 * 60 * 60) sd = Returned num ->
  py.truediv fpy num = Returned p ->
  let t := np.mul 10
             (np.log10 (special.gammaincinv 1 (pyfloat.sub 1 p))) in
  let w := np.rsub whitenoisedensity (np.mul 10 (np.log10 (Fin sd))) in
  let xs := map grid_point (seq 0 100) in
  interactive_detection_plot whitenoisedensity fpy ms
  = (lim <- plt.set_xlim (nparray.add (grid_point 0) w)
                         (nparray.add (grid_point 99) w) ;;
     Returned {|
       signal_duration := sd;
       num_recordings_per_year := num;
       false_positive_rate := p;
       threshold_db := t;
       white_noise_power := w;
       snr_range := xs;
       probability_of_detection :=
         map (fun s => true_positive_rate_np t s false) xs;
       xlim := lim
     |}).
Proof.
  intros H1 H2 H3 t w xs. unfold interactive_detection_plot.
  rewrite H1. cbn [py.bind]. rewrite H2. cbn [py.bind].
  rewrite H3. cbn [py.bind].
  unfold snr_threshold_given_false_positive_rate at 1,
    true_positive_rate_array. cbn [py.call py.bind].
  rewrite arange_10_20. fold t w xs.
  unfold plt.plot. rewrite length_map, Nat.eqb_refl. cbn [py.bind].
  unfold xs at 1 2. rewrite getitem_first, getitem_last. cbn [py.bind].
  reflexivity.
Qed.

(** The three quotients for a duration between a microsecond and
    [10^6] ms in size, and a number of false positives that is zero or
    between [10^-300] and [10^6] in size: no quotient is lost to zero. *)
Lemma plot_quotients (fpy ms : R) :
  1 / 1000 <= Rabs ms <= 10 ^ 6 ->
  fpy = 0 \/ 1 / 10 ^ 300 <= Rabs fpy <= 10 ^ 6 ->
  py.truediv ms 1000 = Returned (ms / 1000) /\
  py.truediv (365 * 24 * 60 * 60) (ms / 1000)
  = Returned (365 * 24 * 60 * 60 / (ms / 1000)) /\
  py.truediv fpy (365 * 24 * 60 * 60 / (ms / 1000))
  = Returned (fpy * ms / 31536000000).
Proof.
  intros Hms Hf. pose proof underflow_threshold_small as Hu.
  assert (Hms0 : ms <> 0).
  { intros E. subst ms. rewrite Rabs_R0 in Hms. lra. }
  assert (Hsd : 1 / 10 ^ 6 <= Rabs (ms / 1000) <= 1000).
  { unfold Rdiv at 2 3. rewrite Rabs_mult, (Rabs_pos_eq (/ 1000)); lra. }
  assert (Hsd0 : ms / 1000 <> 0) by lra.
  assert (Hnum : 31536 <= Rabs (365 * 24 * 60 * 60 / (ms / 1000))
                 <= 31536 * 10 ^ 9).
  { unfold Rdiv at 1 3. rewrite Rabs_mult, Rabs_inv.
    rewrite (Rabs_pos_eq (365 * 24 * 60 * 60)) by lra.
    assert (Hi : / 1000 <= / Rabs (ms / 1000) <= 10 ^ 6).
    { split.
      - apply Rinv_le_contravar; lra.
      - rewrite <- (Rinv_inv (10 ^ 6)). apply Rinv_le_contravar; lra. }
    split; nra. }
  assert (Hnum0 : 365 * 24 * 60 * 60 / (ms / 1000) <> 0).
  { intros E. rewrite E, Rabs_R0 in Hnum. lra. }
  assert (Ep : fpy / (365 * 24 * 60 * 60 / (ms / 1000))
               = fpy * ms / 31536000000) by (field; lra).
  split; [apply truediv_value; lra|].
  split; [apply truediv_value; lra|].
  destruct Hf as [Hf|Hf].
  - subst fpy. unfold py.truediv.
    destruct (Req_dec_T _ 0) as [E|_]; [contradiction|].
    destruct (Rle_dec _ _) as [_|H].
    + f_equal. lra.
    + rewrite Ep. reflexivity.
  - rewrite <- Ep. apply truediv_value; [exact Hnum0|].
    rewrite Ep. unfold Rdiv. rewrite !Rabs_mult.
    rewrite (Rabs_pos_eq (/ 31536000000)) by lra.
    assert (1 / 10 ^ 300 * (1 / 1000) <= Rabs fpy * Rabs ms).
    { apply Rmult_le_compat; lra. }
    apply Rlt_le_trans with (1 / 10 ^ 300 * (1 / 1000) * / 31536000000);
      [lra|].
    apply Rmult_le_compat_r; lra.
Qed.

(** What the function returns for a positive duration of that range. *)
Lemma plot_returns (whitenoisedensity fpy ms : R) :
  1 / 1000 <= ms <= 10 ^ 6 ->
  fpy = 0 \/ 1 / 10 ^ 300 <= Rabs fpy <= 10 ^ 6 ->
  exists l,
    interactive_detection_plot whitenoisedensity fpy ms = Returned l /\
    signal_duration l = ms / 1000 /\
    false_positive_rate l = fpy * ms / 31536000000 /\
    snr_threshold_given_false_positive_rate (false_positive_rate l)
    = Return (threshold_db l) /\
    white_noise_power l
    = Fin (fp.RN (whitenoisedensity - 10 * np.log10R (ms / 1000))) /\
    snr_range l = map grid_point (seq 0 100) /\
    probability_of_detection l
    = map (fun s => true_positive_rate_np (threshold_db l) s false)
        (snr_range l) /\
    xlim l = (nparray.add (grid_point 0) (white_noise_power l),
              nparray.add (grid_point 99) (white_noise_power l)).
Proof.
  intros Hms Hf.
  destruct (plot_quotients fpy ms) as [H1 [H2 H3]];
    [rewrite Rabs_pos_eq; lra | exact Hf |].
  rewrite (plot_after_divisions _ _ _ _ _ _ H1 H2 H3). cbv zeta.
  assert (E : np.log10 (Fin (ms / 1000)) = Fin (np.log10R (ms / 1000))).
  { unfold np.log10.
    destruct (Rlt_dec (ms / 1000) 0) as [H|_]; [lra|].
    destruct (Req_dec_T (ms / 1000) 0) as [H|_]; [lra|]. reflexivity. }
  rewrite E. cbn [np.mul np.rsub nparray.add plt.set_xlim py.bind].
  eexists. split; [reflexivity|]. cbn.
  repeat (split; [reflexivity|]). reflexivity.
Qed.

(** For a negative duration of that range the logarithm of the duration
    is NaN, so are the limits of the upper axis, and [set_xlim] raises. *)
Lemma plot_negative_duration (whitenoisedensity fpy ms : R) :
  - 10 ^ 6 <= ms <= - (1 / 1000) ->
  fpy = 0 \/ 1 / 10 ^ 300 <= Rabs fpy <= 10 ^ 6 ->
  interactive_detection_plot whitenoisedensity fpy ms
  = Raised (LibraryError ValueError).
Proof.
  intros Hms Hf.
  destruct (plot_quotients fpy ms) as [H1 [H2 H3]];
    [rewrite Rabs_left1; lra | exact Hf |].
  rewrite (plot_after_divisions _ _ _ _ _ _ H1 H2 H3). cbv zeta.
  assert (E : np.log10 (Fin (ms / 1000)) = NaN).
  { unfold np.log10.
    destruct (Rlt_dec (ms / 1000) 0) as [_|H]; [reflexivity | lra]. }
  rewrite E. reflexivity.
Qed.

(** A duration of at most [10^-321] ms in size, zero among them, gives
    the duration 0.0 in seconds, and the division by it raises. *)
Lemma plot_zero_duration (whitenoisedensity fpy ms : R) :
  Rabs ms <= 1 / 10 ^ 321 ->
  interactive_detection_plot whitenoisedensity fpy ms
  = Raised ZeroDivisionError.
Proof.
  intros Hms.
  assert (Hu : 1 / 10 ^ 324 <= fp.underflow_threshold).
  { unfold fp.underflow_threshold.
    apply Rmult_le_reg_r with (2 ^ 1075); [lra|]. rewrite Rinv_l by lra.
    lra. }
  assert (E : py.truediv ms 1000 = Returned 0).
  { unfold py.truediv. destruct (Req_dec_T 1000 0) as [H|_]; [lra|].
    destruct (Rle_dec (Rabs (ms / 1000)) fp.underflow_threshold) as [_|H];
      [reflexivity|].
    exfalso. apply H. unfold Rdiv at 1.
    rewrite Rabs_mult, (Rabs_pos_eq (/ 1000)) by lra. lra. }
  unfold interactive_detection_plot. rewrite E. cbn [py.bind].
  unfold py.truediv at 1. destruct (Req_dec_T 0 0) as [_|H]; [|lra].
  reflexivity.
Qed.
(** Between the rates [2^-40] and [3^-10] the threshold is between 10 and
    20 dB. *)
Lemma threshold_between_10_and_20 (p : R) :
  / 2 ^ 40 < p -> p < / 3 ^ 10 ->
  10 < 10 * np.log10R (- ln p) < 20.
Proof.
  intros Hlo Hhi.
  assert (H40 : 0 < / 2 ^ 40) by (apply Rinv_0_lt_compat; lra).
  assert (Hp : 0 < p) by lra.
  assert (Hu : ln p < Ropp 10).
  { rewrite <- (ln_exp (Ropp 10)). apply ln_increasing; [exact Hp|].
    rewrite exp_Ropp. apply Rlt_le_trans with (1 := Hhi).
    apply Rinv_le_contravar; [apply exp_pos|].
    pose proof (exp_nat_bounds 10) as [_ H].
    replace (INR 10) with 10 in H by (simpl; lra). exact H. }
  assert (Hl : Ropp 100 < ln p).
  { rewrite <- (ln_exp (Ropp 100)). apply ln_increasing; [apply exp_pos|].
    apply Rle_lt_trans with (2 := Hlo). rewrite exp_Ropp.
    apply Rinv_le_contravar; [lra|].
    apply Rle_trans with (exp (INR 40)).
    - apply (proj1 (exp_nat_bounds 40)).
    - replace (INR 40) with 40 by (simpl; lra).
      apply Rlt_le, exp_increasing. lra. }
  assert (np.log10R 10 < np.log10R (- ln p)) by (apply log10R_increasing; lra).
  assert (np.log10R (- ln p) < np.log10R 100) by (apply log10R_increasing; lra).
  rewrite log10R_10 in *. rewrite log10R_100 in *. lra.
Qed.

Lemma solver_values_decrease (p1 p2 : R) :
  0 < p1 -> p1 < p2 -> p2 < 1 ->
  10 * np.log10R (- ln p2) < 10 * np.log10R (- ln p1).
Proof.
  intros H0 H12 H1.
  assert (Hln : ln p1 < ln p2) by (apply ln_increasing; lra).
  assert (Hpos : 0 < - ln p2) by (apply neg_ln_pos; lra).
  assert (np.log10R (- ln p2) < np.log10R (- ln p1)).
  { apply log10R_increasing; lra. }
  lra.
Qed.


(** The rates of one recording the sliders can produce lie between
    [10^-12] and [10^-5]; there the threshold is finite, between 10 and
    20 dB. *)
Lemma solver_between_10_and_20 (p : R) :
  1 / 10 ^ 12 <= p <= 1 / 10 ^ 5 ->
  exists t,
    snr_threshold_given_false_positive_rate p = Return (Fin t) /\
    10 < t < 20.
Proof.
  intros Hp.
  assert (H53 : / 2 ^ 53 <= 1 / 10 ^ 15).
  { apply Rmult_le_reg_r with (2 ^ 53); [lra|]. rewrite Rinv_l by lra. lra. }
  assert (H54 : / 2 ^ 54 <= 1 / 10 ^ 15).
  { apply Rmult_le_reg_r with (2 ^ 54); [lra|]. rewrite Rinv_l by lra. lra. }
  assert (H40 : / 2 ^ 40 <= 1 / 10 ^ 12 - 1 / 10 ^ 15).
  { apply Rmult_le_reg_r with (2 ^ 40); [lra|]. rewrite Rinv_l by lra. lra. }
  assert (H3 : 1 / 10 ^ 5 + 1 / 10 ^ 15 < / 3 ^ 10).
  { apply Rmult_lt_reg_r with (3 ^ 10); [lra|]. rewrite Rinv_l by lra. lra. }
  assert (P53 : 0 < / 2 ^ 53) by (apply Rinv_0_lt_compat; lra).
  assert (Hy : 0 < pyfloat.sub 1 p <= 1 - / 2 ^ 53).
  { apply sub_1_below_1. lra. }
  pose proof (sub_1_error p) as He. apply Rabs_le_inv in He; [|lra].
  exists (10 * np.log10R (- ln (1 - pyfloat.sub 1 p))).
  split; [apply solver_finite; lra|].
  apply threshold_between_10_and_20; lra.
Qed.

(** X9: for every setting of the sliders the function returns, the rate
    of false positives of one recording is in (0,1), and the threshold is
    finite and lies between 10 and 20 dB, inside the range of
    signal-to-noise ratios of the plot. *)
Theorem plot_threshold_on_sliders
    (whitenoisedensity false_positives_per_year signal_duration_ms : R) :
  in_range fpa_slider false_positives_per_year ->
  in_range duration_slider signal_duration_ms ->
  exists l t,
    interactive_detection_plot
      whitenoisedensity false_positives_per_year signal_duration_ms
    = Returned l /\
    0 < false_positive_rate l < 1 /\
    threshold_db l = Fin t /\
    10 < t < 20.
Proof.
  unfold in_range. simpl. intros Hf Hd.
  destruct (plot_returns whitenoisedensity false_positives_per_year
              signal_duration_ms) as [l [Hl [_ [Hp [Ht _]]]]]; [lra| |].
  { right. rewrite Rabs_pos_eq; lra. }
  set (p := false_positive_rate l) in *.
  assert (Hprod : 2 / 10 <= false_positives_per_year * signal_duration_ms
                  <= 50000) by nra.
  assert (Hr : 1 / 10 ^ 12 <= p <= 1 / 10 ^ 5) by (rewrite Hp; lra).
  destruct (solver_between_10_and_20 p Hr) as [t [Hs Ht']].
  rewrite Hs in Ht. injection Ht as Ht.
  exists l, t.
  split; [exact Hl|]. split; [fold p; split; lra|]. split; [now symmetry | exact Ht'].
Qed.

Lemma plot_threshold_on_sliders_witness :
  in_range fpa_slider (value fpa_slider) /\
  in_range duration_slider (value duration_slider) /\
  exists l t,
    interactive_detection_plot
      (value whitenoiseslider) (value fpa_slider) (value duration_slider)
    = Returned l /\
    0 < false_positive_rate l < 1 /\
    threshold_db l = Fin t /\
    10 < t < 20.
Proof.
  assert (H1 : in_range fpa_slider (value fpa_slider))
    by (unfold in_range; simpl; lra).
  assert (H2 : in_range duration_slider (value duration_slider))
    by (unfold in_range; simpl; lra).
  split; [exact H1|]. split; [exact H2|].
  exact (plot_threshold_on_sliders _ _ _ H1 H2).
Defined.

(** ** The evaluator on numpy floats *)

Lemma pow10_div_10 (t : R) :
  - 200 <= t <= 40 ->
  nparray.pow10 (nparray.div (Fin t) 10) = Fin (Rpower 10 (t / 10)).
Proof.
  intros Ht.
  assert (He : - 20 <= t / 10 <= 4) by lra.
  destruct (power10_in_range (t / 10) He) as [Hl Hu].
  pose proof overflow_threshold_large as Hov.
  unfold nparray.div. destruct (Req_dec_T 10 0) as [H|_]; [lra|].
  unfold nparray.pow10, np.power.
  destruct (Rle_dec fp.overflow_threshold (Rpower 10 (t / 10))) as [H|_];
    [lra|].
  destruct (Rle_dec (Rpower 10 (t / 10)) fp.underflow_threshold) as [H|_];
    [lra|].
  reflexivity.
Qed.

(** At a finite threshold and a signal-to-noise ratio between -200 and
    40 dB the array version computes what the scalar version does. *)
Lemma true_positive_rate_np_value (t s : R) (isPeak : bool) :
  - 200 <= t <= 40 -> - 200 <= s <= 40 ->
  true_positive_rate_np (Fin t) s isPeak
  = Fin (fp.RN (1 - dist.ncx2_cdf 2 (Spec.lambda s isPeak) (Spec.x t))).
Proof.
  intros Ht Hs.
  pose proof (spec_lambda_pos s isPeak) as Hl.
  pose proof (spec_x_pos t) as Hx.
  unfold true_positive_rate_np. rewrite !pow10_div_10 by assumption.
  cbn [np.mul].
  assert (E : (if negb isPeak then 2 else 1) * Rpower 10 (s / 10)
              = Spec.lambda s isPeak).
  { unfold Spec.lambda, Spec.factor. now destruct isPeak. }
  rewrite E. change (2 * Rpower 10 (t / 10)) with (Spec.x t).
  unfold nparray.ncx2_cdf, stats.ncx2_cdf.
  change (Nat.eqb 2 0) with false. cbv iota.
  destruct (Rlt_dec (Spec.lambda s isPeak) 0) as [H|_]; [lra|].
  destruct (Rle_dec (Spec.x t) 0) as [H|_]; [lra|].
  reflexivity.
Qed.

Lemma true_positive_rate_np_close (t s : R) (isPeak : bool) :
  - 200 <= t <= 40 -> - 200 <= s <= 40 ->
  exists v,
    true_positive_rate_np (Fin t) s isPeak = Fin v /\
    0 <= v <= 1 /\
    Rabs (v - (1 - dist.ncx2_cdf 2 (Spec.lambda s isPeak) (Spec.x t)))
    <= / 2 ^ 53.
Proof.
  intros Ht Hs. eexists. split; [now apply true_positive_rate_np_value|].
  assert (H : 0 <= 1 - dist.ncx2_cdf 2 (Spec.lambda s isPeak) (Spec.x t)
              <= 1).
  { pose proof (ncx2_cdf_bounds _ _
                  (Rlt_le _ _ (spec_lambda_pos s isPeak)) (spec_x_pos t)).
    lra. }
  split; [now apply RN_unit_interval | now apply RN_error_unit].
Qed.



(** ** The plotting function: the grid *)

Lemma grid_point_first : grid_point 0 = 10.
Proof.
  unfold grid_point. change (INR 0) with 0. rewrite Rmult_0_l, RN_0.
  replace (10 + 0) with 10 by ring. apply RN_10.
Qed.

(** The last entry of the grid is below 19.9, by between 3e-14 and
    4e-14: the step [delta] is below 0.1. *)
Lemma grid_point_last :
  199 / 10 - 4 / 10 ^ 14 <= grid_point 99 <= 199 / 10 - 3 / 10 ^ 14.
Proof.
  unfold grid_point. rewrite arange_delta_10.
  replace (INR 99) with 99 by (simpl; lra).
  set (z := 99 * (56294995342131 / 2 ^ 49)).
  assert (Hz : 99 / 10 - 36 / 10 ^ 15 <= z <= 99 / 10 - 35 / 10 ^ 15).
  { unfold z. split.
    - apply Rmult_le_reg_r with (2 ^ 49); [lra|].
      unfold Rdiv at 3. rewrite <- Rmult_assoc, Rmult_assoc, Rinv_l by lra.
      lra.
    - apply Rmult_le_reg_r with (2 ^ 49); [lra|].
      unfold Rdiv at 1. rewrite <- Rmult_assoc, Rmult_assoc, Rinv_l by lra.
      lra. }
  assert (H53 : 10 ^ 15 <= 2 ^ 53) by lra.
  assert (Hs : / 2 ^ 53 <= 1 / 10 ^ 15).
  { unfold Rdiv. rewrite Rmult_1_l. apply Rinv_le_contravar; lra. }
  assert (P53 : 0 < / 2 ^ 53) by (apply Rinv_0_lt_compat; lra).
  pose proof (RN_error_bounded z 10) as E1.
  rewrite Rabs_pos_eq in E1 by lra.
  assert (Hz10 : z <= 10) by lra. specialize (E1 Hz10).
  apply Rabs_le_inv in E1. unfold Rdiv in E1.
  pose proof (RN_error_bounded (10 + fp.RN z) 20) as E2.
  rewrite Rabs_pos_eq in E2 by nra.
  assert (Hw : 10 + fp.RN z <= 20) by nra. specialize (E2 Hw).
  apply Rabs_le_inv in E2. unfold Rdiv in E2.
  split; nra.
Qed.

Lemma nth_error_grid (i : nat) :
  (i < 100)%nat ->
  nth_error (map grid_point (seq 0 100)) i = Some (grid_point i).
Proof.
  intros Hi. rewrite nth_error_map.
  rewrite (nth_error_nth' _ 0%nat) by (rewrite length_seq; lia).
  rewrite seq_nth by lia. reflexivity.
Qed.



(** ** The plotting function on the ranges of the sliders *)

(** On the ranges of the sliders: the rate of one recording, the rate
    [q] the solver inverts, the threshold and the curve. *)
Lemma plot_on_sliders (whitenoisedensity fpy ms : R) :
  in_range fpa_slider fpy -> in_range duration_slider ms ->
  exists l q t,
    interactive_detection_plot whitenoisedensity fpy ms = Returned l /\
    false_positive_rate l = fpy * ms / 31536000000 /\
    1 / 10 ^ 12 <= false_positive_rate l <= 1 / 10 ^ 5 /\
    Rabs (q - false_positive_rate l) <= / 2 ^ 53 /\
    / 2 ^ 53 <= q <= 1 - 1 / 10 ^ 16 /\
    t = 10 * np.log10R (- ln q) /\
    10 < t < 20 /\
    threshold_db l = Fin t /\
    white_noise_power l
    = Fin (fp.RN (whitenoisedensity - 10 * np.log10R (ms / 1000))) /\
    snr_range l = map grid_point (seq 0 100) /\
    probability_of_detection l
    = map (fun s => true_positive_rate_np (Fin t) s false)
        (map grid_point (seq 0 100)) /\
    xlim l = (nparray.add (grid_point 0) (white_noise_power l),
              nparray.add (grid_point 99) (white_noise_power l)).
Proof.
  unfold in_range. simpl. intros Hf Hd.
  destruct (plot_returns whitenoisedensity fpy ms)
    as [l [Hl [_ [Hp [Ht [Hw [Hg [Hc Hx]]]]]]]]; [lra| |].
  { right. rewrite Rabs_pos_eq; lra. }
  set (p := false_positive_rate l) in *.
  assert (Hprod : 2 / 10 <= fpy * ms <= 50000) by nra.
  assert (Hr : 1 / 10 ^ 12 <= p <= 1 / 10 ^ 5) by (rewrite Hp; lra).
  assert (H54 : / 2 ^ 54 < 1 / 10 ^ 12).
  { unfold Rdiv. rewrite Rmult_1_l. apply Rinv_lt_contravar; [|lra].
    apply Rmult_lt_0_compat; lra. }
  assert (P53 : 0 < / 2 ^ 53) by (apply Rinv_0_lt_compat; lra).
  assert (H53 : / 2 ^ 53 <= 1 / 10 ^ 15).
  { unfold Rdiv. rewrite Rmult_1_l. apply Rinv_le_contravar; lra. }
  assert (Hdom : / 2 ^ 54 < p <= 1 - / 2 ^ 53) by lra.
  destruct (inverted_rate p Hdom) as [Hq [Hqp Hs]].
  set (q := 1 - pyfloat.sub 1 p) in *.
  rewrite Hs in Ht. injection Ht as Ht.
  exists l, q, (10 * np.log10R (- ln q)).
  split; [exact Hl|]. split; [exact Hp|]. split; [exact Hr|].
  split; [exact Hqp|]. split; [exact Hq|]. split; [reflexivity|].
  assert (H40 : / 2 ^ 40 <= 1 / 10 ^ 12 - 1 / 10 ^ 15).
  { apply Rmult_le_reg_r with (2 ^ 40); [lra|]. rewrite Rinv_l by lra. lra. }
  assert (H3 : 1 / 10 ^ 5 + 1 / 10 ^ 15 < / 3 ^ 10).
  { apply Rmult_lt_reg_r with (3 ^ 10); [lra|]. rewrite Rinv_l by lra. lra. }
  apply Rabs_le_inv in Hqp.
  split; [apply threshold_between_10_and_20; lra|].
  split; [now symmetry|]. split; [exact Hw|]. split; [exact Hg|].
  split; [|exact Hx].
  rewrite Hc, Hg, <- Ht. reflexivity.
Qed.

Lemma grid_point_range (i : nat) :
  (i < 100)%nat -> 10 <= grid_point i < 20.
Proof.
  intros Hi. destruct (grid_point_value i Hi) as [H10 He].
  apply Rabs_le_inv in He.
  assert (INR i <= 99).
  { replace 99 with (INR 99) by (simpl; lra). apply le_INR. lia. }
  lra.
Qed.

Lemma grid_point_le (i j : nat) :
  (i <= j)%nat -> (j < 100)%nat -> grid_point i <= grid_point j.
Proof.
  intros Hij Hj. destruct (Nat.eq_dec i j) as [E|E]; [subst; lra|].
  assert (Hi : (i < 100)%nat) by lia.
  destruct (grid_point_value i Hi) as [_ Hei].
  destruct (grid_point_value j Hj) as [_ Hej].
  apply Rabs_le_inv in Hei. apply Rabs_le_inv in Hej.
  assert (INR i + 1 <= INR j).
  { rewrite <- S_INR. apply le_INR. lia. }
  lra.
Qed.

Lemma nth_error_curve (f : R -> npfloat) (i : nat) :
  (i < 100)%nat ->
  nth_error (map f (map grid_point (seq 0 100))) i
  = Some (f (grid_point i)).
Proof.
  intros Hi. rewrite nth_error_map, nth_error_grid by exact Hi. reflexivity.
Qed.

(** X11: on the ranges of the sliders every plotted value is a
    probability: finite, in [0,1], and, up to rounding (1e-13), at least
    the rate of false positives of one recording. *)
Theorem plot_curve_bounds (whitenoisedensity fpy ms : R) :
  in_range fpa_slider fpy -> in_range duration_slider ms ->
  exists l,
    interactive_detection_plot whitenoisedensity fpy ms = Returned l /\
    forall i, (i < 100)%nat ->
      exists v,
        nth_error (probability_of_detection l) i = Some (Fin v) /\
        0 <= v <= 1 /\
        false_positive_rate l - 1 / 10 ^ 13 <= v.
Proof.
  intros Hf Hd.
  destruct (plot_on_sliders whitenoisedensity fpy ms Hf Hd)
    as [l [q [t [Hl [_ [_ [Hqp [Hq [Et [Ht [_ [_ [_ [Hc _]]]]]]]]]]]]]].
  exists l. split; [exact Hl|]. intros i Hi.
  pose proof (grid_point_range i Hi) as Hs.
  destruct (true_positive_rate_np_close t (grid_point i) false)
    as [v [Hv [Hu He]]]; [lra | lra |].
  exists v. rewrite Hc, nth_error_curve by exact Hi.
  split; [now rewrite Hv|]. split; [exact Hu|].
  pose proof (ncx2_cdf_strict _ _ (spec_lambda_pos (grid_point i) false)
                (spec_x_pos t)) as [_ H].
  rewrite spec_x_half in H.
  destruct (neg_ln_range q Hq) as [Hln _].
  assert (E : np.power 10 (t / 10) = - ln q).
  { rewrite Et. replace (10 * np.log10R (- ln q) / 10)
      with (np.log10R (- ln q)) by field.
    apply power10_log10R. lra. }
  assert (P53 : 0 < / 2 ^ 53) by (apply Rinv_0_lt_compat; lra).
  rewrite E in H. replace (- - ln q) with (ln q) in H by ring.
  rewrite exp_ln in H by lra.
  apply Rabs_le_inv in He. apply Rabs_le_inv in Hqp.
  pose proof two_pow_m53_tiny. lra.
Qed.

Lemma plot_curve_bounds_witness :
  in_range fpa_slider (value fpa_slider) /\
  in_range duration_slider (value duration_slider) /\
  exists l,
    interactive_detection_plot
      (value whitenoiseslider) (value fpa_slider) (value duration_slider)
    = Returned l /\
    forall i, (i < 100)%nat ->
      exists v,
        nth_error (probability_of_detection l) i = Some (Fin v) /\
        0 <= v <= 1 /\
        false_positive_rate l - 1 / 10 ^ 13 <= v.
Proof.
  assert (H1 : in_range fpa_slider (value fpa_slider))
    by (unfold in_range; simpl; lra).
  assert (H2 : in_range duration_slider (value duration_slider))
    by (unfold in_range; simpl; lra).
  split; [exact H1|]. split; [exact H2|].
  exact (plot_curve_bounds _ _ _ H1 H2).
Defined.

(** X12: on the ranges of the sliders the plotted curve does not fall
    along the grid, up to rounding (1e-9). *)
Theorem plot_curve_monotone (whitenoisedensity fpy ms : R) :
  in_range fpa_slider fpy -> in_range duration_slider ms ->
  exists l,
    interactive_detection_plot whitenoisedensity fpy ms = Returned l /\
    forall i j, (i <= j)%nat -> (j < 100)%nat ->
      exists vi vj,
        nth_error (probability_of_detection l) i = Some (Fin vi) /\
        nth_error (probability_of_detection l) j = Some (Fin vj) /\
        vi <= vj + 1 / 10 ^ 9.
Proof.
  intros Hf Hd.
  destruct (plot_on_sliders whitenoisedensity fpy ms Hf Hd)
    as [l [q [t [Hl [_ [_ [_ [_ [_ [Ht [_ [_ [_ [Hc _]]]]]]]]]]]]]].
  exists l. split; [exact Hl|]. intros i j Hij Hj.
  assert (Hi : (i < 100)%nat) by lia.
  pose proof (grid_point_range i Hi) as Hsi.
  pose proof (grid_point_range j Hj) as Hsj.
  pose proof (grid_point_le i j Hij Hj) as Hle.
  destruct (true_positive_rate_np_close t (grid_point i) false)
    as [vi [Hvi [_ Ei]]]; [lra | lra |].
  destruct (true_positive_rate_np_close t (grid_point j) false)
    as [vj [Hvj [_ Ej]]]; [lra | lra |].
  exists vi, vj. rewrite Hc, !nth_error_curve by assumption.
  split; [now rewrite Hvi|]. split; [now rewrite Hvj|].
  assert (Hlam : Spec.lambda (grid_point i) false
                 <= Spec.lambda (grid_point j) false).
  { unfold Spec.lambda. apply Rmult_le_compat_l.
    - apply Rlt_le, spec_factor_pos.
    - apply power10_monotone. lra. }
  pose proof (ncx2_cdf_antitone _ _ (Spec.x t)
                (Rlt_le _ _ (spec_lambda_pos (grid_point i) false)) Hlam
                (spec_x_pos t)) as Ha.
  apply Rabs_le_inv in Ei. apply Rabs_le_inv in Ej.
  pose proof two_pow_m53_small. lra.
Qed.

Lemma plot_curve_monotone_witness :
  in_range fpa_slider (value fpa_slider) /\
  in_range duration_slider (value duration_slider) /\
  exists l,
    interactive_detection_plot
      (value whitenoiseslider) (value fpa_slider) (value duration_slider)
    = Returned l /\
    forall i j, (i <= j)%nat -> (j < 100)%nat ->
      exists vi vj,
        nth_error (probability_of_detection l) i = Some (Fin vi) /\
        nth_error (probability_of_detection l) j = Some (Fin vj) /\
        vi <= vj + 1 / 10 ^ 9.
Proof.
  assert (H1 : in_range fpa_slider (value fpa_slider))
    by (unfold in_range; simpl; lra).
  assert (H2 : in_range duration_slider (value duration_slider))
    by (unfold in_range; simpl; lra).
  split; [exact H1|]. split; [exact H2|].
  exact (plot_curve_monotone _ _ _ H1 H2).
Defined.

(** ** The plotting function: the upper axis *)

Lemma log10R_1 : np.log10R 1 = 0.
Proof.
  unfold np.log10R. rewrite ln_1. unfold Rdiv. ring.
Qed.

Lemma log10R_duration (ms : R) :
  1 <= ms <= 50 -> - 3 <= np.log10R (ms / 1000) <= 0.
Proof.
  intros Hms. split.
  - replace (- 3) with (np.log10R (/ 10 ^ 3)).
    + apply log10R_le; lra.
    + rewrite log10R_Rinv, log10R_pow10 by lra. simpl. lra.
  - rewrite <- log10R_1. apply log10R_le; lra.
Qed.

(** The white-noise power [w] and the limits [a], [b] of the upper axis
    on the ranges of the sliders, up to the rounding of the two
    operations behind each. *)
Lemma plot_axis_on_sliders (whitenoisedensity fpy ms : R) :
  in_range whitenoiseslider whitenoisedensity ->
  in_range fpa_slider fpy -> in_range duration_slider ms ->
  exists l w a b,
    interactive_detection_plot whitenoisedensity fpy ms = Returned l /\
    white_noise_power l = Fin w /\
    xlim l = (Fin a, Fin b) /\
    Rabs (w - (whitenoisedensity - 10 * np.log10R (ms / 1000)))
    <= 1 / 10 ^ 13 /\
    Rabs (a - (10 + (whitenoisedensity - 10 * np.log10R (ms / 1000))))
    <= 1 / 10 ^ 13 /\
    Rabs (b - (199 / 10 + (whitenoisedensity - 10 * np.log10R (ms / 1000))))
    <= 1 / 10 ^ 13 /\
    threshold_db l
    = np.mul 10 (np.log10 (special.gammaincinv 1
                             (pyfloat.sub 1 (fpy * ms / 31536000000)))) /\
    snr_range l = map grid_point (seq 0 100) /\
    probability_of_detection l
    = map (fun s => true_positive_rate_np (threshold_db l) s false)
        (map grid_point (seq 0 100)).
Proof.
  intros Hw Hf Hd. unfold in_range in Hw, Hf, Hd. simpl in Hw, Hf, Hd.
  destruct (plot_returns whitenoisedensity fpy ms)
    as [l [Hl [_ [Hp [Ht [HW [Hg [Hc Hx]]]]]]]]; [lra| |].
  { right. rewrite Rabs_pos_eq; lra. }
  pose proof (log10R_duration ms Hd) as HL.
  set (W := whitenoisedensity - 10 * np.log10R (ms / 1000)) in *.
  assert (HWr : 60 <= W <= 170) by (unfold W; lra).
  pose proof two_pow_m53_tiny as Hs.
  assert (P53 : 0 < / 2 ^ 53) by (apply Rinv_0_lt_compat; lra).
  pose proof (RN_error_bounded W 170) as Ew.
  rewrite Rabs_pos_eq in Ew by lra. specialize (Ew (proj2 HWr)).
  apply Rabs_le_inv in Ew. unfold Rdiv in Ew.
  set (w := fp.RN W) in *.
  pose proof (RN_error_bounded (grid_point 0 + w) 200) as Ea.
  rewrite grid_point_first in Ea.
  rewrite Rabs_pos_eq in Ea by lra.
  assert (Ha200 : 10 + w <= 200) by lra. specialize (Ea Ha200).
  apply Rabs_le_inv in Ea. unfold Rdiv in Ea.
  pose proof grid_point_last as Hg99.
  pose proof (RN_error_bounded (grid_point 99 + w) 200) as Eb.
  rewrite Rabs_pos_eq in Eb by lra.
  assert (Hb200 : grid_point 99 + w <= 200) by lra. specialize (Eb Hb200).
  apply Rabs_le_inv in Eb. unfold Rdiv in Eb.
  exists l, w, (fp.RN (10 + w)), (fp.RN (grid_point 99 + w)).
  split; [exact Hl|]. split; [exact HW|].
  split; [rewrite Hx, HW, grid_point_first; reflexivity|].
  split; [apply Rabs_le; lra|].
  split; [apply Rabs_le; lra|].
  split; [apply Rabs_le; lra|].
  split.
  - unfold snr_threshold_given_false_positive_rate in Ht.
    rewrite Hp in Ht. injection Ht as Ht. now symmetry.
  - split; [exact Hg|]. rewrite Hc, Hg. reflexivity.
Qed.

(** X13: on the ranges of the three sliders the white-noise power is
    [whitenoisedensity - 10*log10(signal_duration_ms/1000)] and the upper
    axis runs from 10 plus that power to 19.9 plus that power, each up to
    rounding (1e-12). *)
Theorem plot_top_axis (whitenoisedensity fpy ms : R) :
  in_range whitenoiseslider whitenoisedensity ->
  in_range fpa_slider fpy -> in_range duration_slider ms ->
  exists l w a b,
    interactive_detection_plot whitenoisedensity fpy ms = Returned l /\
    white_noise_power l = Fin w /\
    xlim l = (Fin a, Fin b) /\
    within_abs_tol (1 / 10 ^ 12)
      w (whitenoisedensity - 10 * np.log10R (ms / 1000)) /\
    within_abs_tol (1 / 10 ^ 12)
      a (10 + (whitenoisedensity - 10 * np.log10R (ms / 1000))) /\
    within_abs_tol (1 / 10 ^ 12)
      b (199 / 10 + (whitenoisedensity - 10 * np.log10R (ms / 1000))).
Proof.
  intros Hw Hf Hd.
  destruct (plot_axis_on_sliders whitenoisedensity fpy ms Hw Hf Hd)
    as [l [w [a [b [Hl [HW [Hx [Ew [Ea [Eb _]]]]]]]]]].
  exists l, w, a, b. unfold within_abs_tol.
  split; [exact Hl|]. split; [exact HW|]. split; [exact Hx|].
  split; [lra|]. split; lra.
Qed.

Lemma plot_top_axis_witness :
  in_range whitenoiseslider (value whitenoiseslider) /\
  in_range fpa_slider (value fpa_slider) /\
  in_range duration_slider (value duration_slider) /\
  exists l w a b,
    interactive_detection_plot
      (value whitenoiseslider) (value fpa_slider) (value duration_slider)
    = Returned l /\
    white_noise_power l = Fin w /\
    xlim l = (Fin a, Fin b) /\
    within_abs_tol (1 / 10 ^ 12)
      w (value whitenoiseslider
         - 10 * np.log10R (value duration_slider / 1000)) /\
    within_abs_tol (1 / 10 ^ 12)
      a (10 + (value whitenoiseslider
               - 10 * np.log10R (value duration_slider / 1000))) /\
    within_abs_tol (1 / 10 ^ 12)
      b (199 / 10 + (value whitenoiseslider
                     - 10 * np.log10R (value duration_slider / 1000))).
Proof.
  assert (H0 : in_range whitenoiseslider (value whitenoiseslider))
    by (unfold in_range; simpl; lra).
  assert (H1 : in_range fpa_slider (value fpa_slider))
    by (unfold in_range; simpl; lra).
  assert (H2 : in_range duration_slider (value duration_slider))
    by (unfold in_range; simpl; lra).
  split; [exact H0|]. split; [exact H1|]. split; [exact H2|].
  exact (plot_top_axis _ _ _ H0 H1 H2).
Defined.

(** X14: the white-noise density only moves the upper axis.  Two calls
    on the ranges of the sliders that differ in the density alone have the
    same threshold, grid and curve, and their upper-axis limits differ by
    the difference of the densities, up to rounding (1e-12). *)
Theorem plot_noise_density_shifts_axis (density1 density2 fpy ms : R) :
  in_range whitenoiseslider density1 ->
  in_range whitenoiseslider density2 ->
  in_range fpa_slider fpy -> in_range duration_slider ms ->
  exists l1 l2 a1 b1 a2 b2,
    interactive_detection_plot density1 fpy ms = Returned l1 /\
    interactive_detection_plot density2 fpy ms = Returned l2 /\
    threshold_db l1 = threshold_db l2 /\
    snr_range l1 = snr_range l2 /\
    probability_of_detection l1 = probability_of_detection l2 /\
    xlim l1 = (Fin a1, Fin b1) /\
    xlim l2 = (Fin a2, Fin b2) /\
    within_abs_tol (1 / 10 ^ 12) (a2 - a1) (density2 - density1) /\
    within_abs_tol (1 / 10 ^ 12) (b2 - b1) (density2 - density1).
Proof.
  intros H1 H2 Hf Hd.
  destruct (plot_axis_on_sliders density1 fpy ms H1 Hf Hd)
    as [l1 [w1 [a1 [b1 [Hl1 [_ [Hx1 [_ [Ea1 [Eb1 [Ht1 [Hg1 Hc1]]]]]]]]]]]].
  destruct (plot_axis_on_sliders density2 fpy ms H2 Hf Hd)
    as [l2 [w2 [a2 [b2 [Hl2 [_ [Hx2 [_ [Ea2 [Eb2 [Ht2 [Hg2 Hc2]]]]]]]]]]]].
  exists l1, l2, a1, b1, a2, b2.
  split; [exact Hl1|]. split; [exact Hl2|].
  split; [now rewrite Ht1, Ht2|].
  split; [now rewrite Hg1, Hg2|].
  split; [now rewrite Hc1, Hc2, Ht1, Ht2|].
  split; [exact Hx1|]. split; [exact Hx2|].
  apply Rabs_le_inv in Ea1. apply Rabs_le_inv in Ea2.
  apply Rabs_le_inv in Eb1. apply Rabs_le_inv in Eb2.
  unfold within_abs_tol. split; apply Rabs_le; lra.
Qed.

Lemma plot_noise_density_shifts_axis_witness :
  in_range whitenoiseslider (min whitenoiseslider) /\
  in_range whitenoiseslider (max whitenoiseslider) /\
  in_range fpa_slider (value fpa_slider) /\
  in_range duration_slider (min duration_slider) /\
  exists l1 l2 a1 b1 a2 b2,
    interactive_detection_plot
      (min whitenoiseslider) (value fpa_slider) (min duration_slider)
    = Returned l1 /\
    interactive_detection_plot
      (max whitenoiseslider) (value fpa_slider) (min duration_slider)
    = Returned l2 /\
    threshold_db l1 = threshold_db l2 /\
    snr_range l1 = snr_range l2 /\
    probability_of_detection l1 = probability_of_detection l2 /\
    xlim l1 = (Fin a1, Fin b1) /\
    xlim l2 = (Fin a2, Fin b2) /\
    within_abs_tol (1 / 10 ^ 12)
      (a2 - a1) (max whitenoiseslider - min whitenoiseslider) /\
    within_abs_tol (1 / 10 ^ 12)
      (b2 - b1) (max whitenoiseslider - min whitenoiseslider).
Proof.
  assert (H1 : in_range whitenoiseslider (min whitenoiseslider))
    by (unfold in_range; simpl; lra).
  assert (H2 : in_range whitenoiseslider (max whitenoiseslider))
    by (unfold in_range; simpl; lra).
  assert (H3 : in_range fpa_slider (value fpa_slider))
    by (unfold in_range; simpl; lra).
  assert (H4 : in_range duration_slider (min duration_slider))
    by (unfold in_range; simpl; lra).
  split; [exact H1|]. split; [exact H2|]. split; [exact H3|].
  split; [exact H4|].
  exact (plot_noise_density_shifts_axis _ _ _ _ H1 H2 H3 H4).
Defined.

(** ** The plotting function: rates at the ends of the domain of the solver *)




(** X16: on the ranges of the sliders the threshold falls strictly when
    the product of the number of false positives per year and the
    duration grows by at least one part in a thousand, whatever the noise
    densities. *)
Theorem plot_threshold_decreases
    (density1 density2 fpy1 ms1 fpy2 ms2 : R) :
  in_range fpa_slider fpy1 -> in_range duration_slider ms1 ->
  in_range fpa_slider fpy2 -> in_range duration_slider ms2 ->
  fpy1 * ms1 * (1 + 1 / 1000) <= fpy2 * ms2 ->
  exists l1 l2 t1 t2,
    interactive_detection_plot density1 fpy1 ms1 = Returned l1 /\
    interactive_detection_plot density2 fpy2 ms2 = Returned l2 /\
    threshold_db l1 = Fin t1 /\
    threshold_db l2 = Fin t2 /\
    t2 < t1.
Proof.
  intros Hf1 Hd1 Hf2 Hd2 Hgrow.
  destruct (plot_on_sliders density1 fpy1 ms1 Hf1 Hd1)
    as [l1 [q1 [t1 [Hl1 [Hp1 [Hr1 [Hqp1 [Hq1 [Et1 [_ [Ht1 _]]]]]]]]]]].
  destruct (plot_on_sliders density2 fpy2 ms2 Hf2 Hd2)
    as [l2 [q2 [t2 [Hl2 [Hp2 [Hr2 [Hqp2 [Hq2 [Et2 [_ [Ht2 _]]]]]]]]]]].
  exists l1, l2, t1, t2.
  split; [exact Hl1|]. split; [exact Hl2|].
  split; [exact Ht1|]. split; [exact Ht2|].
  pose proof two_pow_m53_tiny as Hs.
  assert (P53 : 0 < / 2 ^ 53) by (apply Rinv_0_lt_compat; lra).
  apply Rabs_le_inv in Hqp1. apply Rabs_le_inv in Hqp2.
  rewrite Hp1 in *. rewrite Hp2 in *.
  rewrite Et1, Et2. apply solver_values_decrease; lra.
Qed.

Lemma plot_threshold_decreases_witness :
  in_range fpa_slider (value fpa_slider) /\
  in_range duration_slider (min duration_slider) /\
  in_range fpa_slider (value fpa_slider) /\
  in_range duration_slider (value duration_slider) /\
  value fpa_slider * min duration_slider * (1 + 1 / 1000)
  <= value fpa_slider * value duration_slider /\
  exists l1 l2 t1 t2,
    interactive_detection_plot
      (value whitenoiseslider) (value fpa_slider) (min duration_slider)
    = Returned l1 /\
    interactive_detection_plot
      (value whitenoiseslider) (value fpa_slider) (value duration_slider)
    = Returned l2 /\
    threshold_db l1 = Fin t1 /\
    threshold_db l2 = Fin t2 /\
    t2 < t1.
Proof.
  assert (H1 : in_range fpa_slider (value fpa_slider))
    by (unfold in_range; simpl; lra).
  assert (H2 : in_range duration_slider (min duration_slider))
    by (unfold in_range; simpl; lra).
  assert (H3 : in_range duration_slider (value duration_slider))
    by (unfold in_range; simpl; lra).
  assert (H4 : value fpa_slider * min duration_slider * (1 + 1 / 1000)
               <= value fpa_slider * value duration_slider)
    by (simpl; lra).
  split; [exact H1|]. split; [exact H2|]. split; [exact H1|].
  split; [exact H3|]. split; [exact H4|].
  exact (plot_threshold_decreases _ _ _ _ _ _ H1 H2 H1 H3 H4).
Defined.

(** X8: what the duration decides.  With a number of false positives
    per year that is zero or between [10^-300] and [10^6] in size: a
    duration of at most [10^-321] ms in size, zero among them, becomes the
    duration 0.0 in seconds and the function raises [ZeroDivisionError];
    for a negative duration between [-10^6] and [-10^-3] ms the limits
    of the upper axis are NaN and [set_xlim] raises [ValueError]; for a
    positive duration between [10^-3] and [10^6] ms the function
    returns. *)
Theorem plot_outcome_by_duration (whitenoisedensity fpy ms : R) :
  fpy = 0 \/ 1 / 10 ^ 300 <= Rabs fpy <= 10 ^ 6 ->
  (Rabs ms <= 1 / 10 ^ 321 ->
   interactive_detection_plot whitenoisedensity fpy ms
   = Raised ZeroDivisionError) /\
  (- 10 ^ 6 <= ms <= - (1 / 1000) ->
   interactive_detection_plot whitenoisedensity fpy ms
   = Raised (LibraryError ValueError)) /\
  (1 / 1000 <= ms <= 10 ^ 6 ->
   exists l,
     interactive_detection_plot whitenoisedensity fpy ms = Returned l).
Proof.
  intros Hf. split; [|split].
  - intros Hms. now apply plot_zero_duration.
  - intros Hms. now apply plot_negative_duration.
  - intros Hms.
    destruct (plot_returns whitenoisedensity fpy ms Hms Hf) as [l [Hl _]].
    now exists l.
Qed.

Lemma plot_outcome_by_duration_witness :
  (1 = 0 \/ 1 / 10 ^ 300 <= Rabs 1 <= 10 ^ 6) /\
  (Rabs 0 <= 1 / 10 ^ 321 ->
   interactive_detection_plot 90 1 0 = Raised ZeroDivisionError) /\
  (- 10 ^ 6 <= 0 <= - (1 / 1000) ->
   interactive_detection_plot 90 1 0 = Raised (LibraryError ValueError)) /\
  (1 / 1000 <= 0 <= 10 ^ 6 ->
   exists l, interactive_detection_plot 90 1 0 = Returned l).
Proof.
  assert (H : 1 = 0 \/ 1 / 10 ^ 300 <= Rabs 1 <= 10 ^ 6).
  { right. rewrite Rabs_R1. lra. }
  split; [exact H | exact (plot_outcome_by_duration 90 1 0 H)].
Defined.
